(** * CBOR-LD decoding ([lib/decode.js]): a shallow embedding

    The module under study turns a tagged CBOR value into a JSON-LD
    document in three steps: the header dispatch of [fromCborld], the
    decoding-tree builder [_generateDecodingMap] and the tree realizer
    [_decodeMap].

    JavaScript values are embedded in one inductive type, because the
    source decides by dynamic tests ([instanceof Map], [Array.isArray],
    [typeof], truthiness of a property).  ES [Map]s are association lists
    in insertion order, plain objects are finite maps from property names,
    the term codec map (only ever read with [get]) is a finite map.
    Exceptions are an error monad.  The collaborators that live outside
    this module (the CBOR decoder, the codec classes, [util.inspect], the
    context and term resolver, the diagnostic sink) are a [Host] interface
    and, for the asynchronous entry point, events of an interaction tree.

    Limits of the model: numbers are integers, printed in full; map keys
    are numbers or strings; no value is a function; the property
    enumeration order of plain objects is not kept; assignment to the
    property [__proto__] creates no own property (as in JavaScript) and the
    prototype link it would change is not modelled; the call stack is
    counted in calls of [_decodeMap], the one function that can exhaust
    it. *)

From Stdlib Require Import ZArith String List DecimalString.
From stdpp Require Import gmap strings list fin_maps.
From ITree Require Import ITree ITreeFacts.

Set Warnings "-register-all".
Local Open Scope Z_scope.
Local Open Scope string_scope.

(** ** Exceptions *)

Inductive error : Type :=
| CborldError (code : string) (message : string)   (* new CborldError(code, message) *)
| TypeError (what : string)                        (* raised by the engine *)
| RangeError (what : string)                       (* call stack exhausted *)
| HostError (what : string).                       (* raised by a collaborator *)

Inductive result (A : Type) : Type :=
| Ok (a : A)
| Err (e : error).
Arguments Ok {A} a.
Arguments Err {A} e.

Definition rbind {A B : Type} (r : result A) (k : A -> result B) : result B :=
  match r with
  | Ok a => k a
  | Err e => Err e
  end.

Definition rmap {A B : Type} (f : A -> B) (r : result A) : result B :=
  rbind r (fun a => Ok (f a)).

Declare Scope result_scope.
Delimit Scope result_scope with result.
Notation "'let*' x ':=' r 'in' k" := (rbind r (fun x => k))
  (at level 10, x name, r at level 100, k at level 200) : result_scope.
Local Open Scope result_scope.

Definition is_ok {A : Type} (r : result A) : bool :=
  match r with Ok _ => true | Err _ => false end.

(** ** JavaScript values *)

(** Keys of an ES [Map] as they occur here: CBOR term ids and terms. *)
Inductive key : Type :=
| KNum (n : Z)
| KStr (s : string).

#[global] Instance key_eq_dec : EqDecision key.
Proof. solve_decision. Defined.

#[global] Instance key_countable : Countable key.
Proof.
  refine (inj_countable'
            (fun k => match k with KNum n => inl n | KStr s => inr s end)
            (fun x => match x with inl n => KNum n | inr s => KStr s end) _).
  intros [n|s]; reflexivity.
Defined.

(** [I] is the type of codec instances (objects made by [new Codec()]). *)
Inductive val (I : Type) : Type :=
| VUndef
| VNull
| VBool (b : bool)
| VNum (n : Z)
| VStr (s : string)
| VBytes (bs : list Z)                      (* Buffer / Uint8Array *)
| VArr (elements : list (val I))            (* Array *)
| VMap (entries : list (key * val I))       (* Map, in insertion order *)
| VObj (props : gmap string (val I))        (* plain object *)
| VTagged (tag : Z) (value : val I)         (* cbor.Tagged *)
| VCodec (instance : I).                    (* instance of a codec class *)
Arguments VUndef {I}.
Arguments VNull {I}.
Arguments VBool {I} b.
Arguments VNum {I} n.
Arguments VStr {I} s.
Arguments VBytes {I} bs.
Arguments VArr {I} elements.
Arguments VMap {I} entries.
Arguments VObj {I} props.
Arguments VTagged {I} tag value.
Arguments VCodec {I} instance.

(** [String(key)], as in a template literal or a property name. *)
Definition key_string (k : key) : string :=
  match k with
  | KNum n => NilZero.string_of_int (Z.to_int n)
  | KStr s => s
  end.

Section Values.
Context {I : Type}.

(** An ES [Map]: [set] overwrites in place or appends. *)
Fixpoint map_set (k : key) (v : val I) (m : list (key * val I)) : list (key * val I) :=
  match m with
  | [] => [(k, v)]
  | (k', v') :: m' =>
      if decide (k' = k) then (k, v) :: m' else (k', v') :: map_set k v m'
  end.

Fixpoint map_get (k : key) (m : list (key * val I)) : option (val I) :=
  match m with
  | [] => None
  | (k', v') :: m' => if decide (k' = k) then Some v' else map_get k m'
  end.

(** [obj[name] = v] on a plain object. *)
Definition obj_set (name : string) (v : val I) (o : gmap string (val I))
  : gmap string (val I) :=
  if decide (name = "__proto__") then o else <[name := v]> o.

(** [typeof v]; no value of the model is a function. *)
Definition typeof (v : val I) : string :=
  match v with
  | VUndef => "undefined"
  | VBool _ => "boolean"
  | VNum _ => "number"
  | VStr _ => "string"
  | _ => "object"
  end.

Definition truthy (v : val I) : bool :=
  match v with
  | VUndef | VNull => false
  | VBool b => b
  | VNum n => negb (n =? 0)%Z
  | VStr s => negb (String.eqb s "")
  | _ => true
  end.

(** [v instanceof Map] and [Array.isArray(v)]. *)
Definition is_Map (v : val I) : bool :=
  match v with VMap _ => true | _ => false end.

Definition is_Array (v : val I) : bool :=
  match v with VArr _ => true | _ => false end.

(** [v === n] for a number literal [n]. *)
Definition is_number (v : val I) (n : Z) : bool :=
  match v with VNum m => (m =? n)%Z | _ => false end.

(** Reading property [name] of [v]: own properties of plain objects, the
    two fields of a [cbor.Tagged]; [null] and [undefined] have none. *)
Definition get_prop (v : val I) (name : string) : result (val I) :=
  match v with
  | VUndef | VNull =>
      Err (TypeError ("Cannot read property '" +:+ name +:+ "' of null or undefined"))
  | VObj props => Ok (default VUndef (props !! name))
  | VTagged tag value =>
      if String.eqb name "tag" then Ok (VNum tag)
      else if String.eqb name "value" then Ok value
      else Ok VUndef
  | _ => Ok VUndef
  end.
End Values.

(** ** The collaborators of [decode.js] *)

(** An entry of the term codec map: [{value, codec}]. *)
Record tcm_entry (C : Type) : Type := TcmEntry {
  tc_value : key;      (* [.value]: the term a key stands for *)
  tc_codec : C         (* [.codec]: the codec class registered for it *)
}.
Arguments TcmEntry {C} tc_value tc_codec.
Arguments tc_value {C} t.
Arguments tc_codec {C} t.

(** What the module imports and calls but does not define.  [codec_set c]
    is [new c()] followed by [.set({value, appContextMap, termCodecMap})];
    [codecMap_set] is the same for [CodecMapCodec], whose value is the
    application term map; [decodeCBOR] is the method of that name;
    [inspect v] is [util.inspect(v)] and [inspect_deep v] is
    [util.inspect(v, {depth: null, colors: true})]; [stack_limit] is the
    number of nested calls the engine allows. *)
Class Host : Type := {
  Codec : Type;
  CodecInstance : Type;
  AppContextMap : Type;
  DocumentLoader : Type;
  codec_set : Codec -> val CodecInstance -> option AppContextMap ->
              gmap key (tcm_entry Codec) -> result CodecInstance;
  codecMap_set : gmap string Codec -> gmap key (tcm_entry Codec) ->
                 result CodecInstance;
  decodeCBOR : CodecInstance -> result (val CodecInstance);
  cbor_decode : list Z -> result (val CodecInstance);
  inspect : val CodecInstance -> string;
  inspect_deep : val CodecInstance -> string;
  stack_limit : nat
}.

Section Decode.
Context {H : Host}.

Abbreviation value := (val CodecInstance).
Abbreviation js_map := (list (key * val CodecInstance)).
Abbreviation js_object := (gmap string (val CodecInstance)).
Abbreviation TermCodecMap := (gmap key (tcm_entry Codec)).
Abbreviation AppTermMap := (gmap string Codec).

(** *** Decoding tree builder: [_generateDecodingMap] *)

Definition entries_not_a_function : error :=
  TypeError "cborMap.entries is not a function".

(** [termCodecMap.get(key)] followed by a property read. *)
Definition tcm_get (termCodecMap : TermCodecMap) (k : key) : result (tcm_entry Codec) :=
  match termCodecMap !! k with
  | Some entry => Ok entry
  | None => Err (TypeError "Cannot read property of undefined")
  end.

Definition unknown_term (k : key) : error :=
  CborldError "ERR_UNKNOWN_CBORLD_TERM"
    ("Unknown term '" +:+ key_string k +:+ "' was detected in JSON-LD input.").

(** Lines 76-80: the map the loop starts from. *)
Definition codec_entry (appTermMap : option AppTermMap)
    (termCodecMap : option TermCodecMap) : result js_map :=
  match appTermMap, termCodecMap with
  | Some atm, Some tcm =>
      if bool_decide (0 < size atm)%nat then
        let* codecValue := codecMap_set atm tcm in
        let* entry := tcm_get tcm (KStr "@codec") in
        Ok (map_set (tc_value entry) (VCodec codecValue) [])
      else Ok []
  | _, _ => Ok []
  end.

(** [typeof element === 'object' && element.constructor === Object] *)
Definition is_plain_object (element : value) : result bool :=
  match element with
  | VNull => Err (TypeError "Cannot read property 'constructor' of null")
  | VObj props => Ok (bool_decide (props !! "constructor" = None))
  | _ => Ok false
  end.

Fixpoint mapM {A B : Type} (f : A -> result B) (l : list A) : result (list B) :=
  match l with
  | [] => Ok []
  | x :: l' =>
      let* y := f x in
      let* ys := mapM f l' in
      Ok (y :: ys)
  end.

(** Lines 114-118, also 107-111: [new Codec()] loaded with a value. *)
Definition load_codec (appContextMap : option AppContextMap)
    (termCodecMap : option TermCodecMap) (k : key) (v : value) : result value :=
  match termCodecMap with
  | Some tcm =>
      let* entry := tcm_get tcm k in
      let* decodedValue := codec_set (tc_codec entry) v appContextMap tcm in
      Ok (VCodec decodedValue)
  | None => Ok v
  end.

Section BuilderBody.
(** [rec cborMap] is the recursive call
    [_generateDecodingMap({cborMap, appContextMap, termCodecMap})]. *)
Variable rec : value -> result js_map.
Variable appContextMap : option AppContextMap.
Variable termCodecMap : option TermCodecMap.

(** Lines 101-113: the callback of [value.forEach]. *)
Definition gen_element (k : key) (element : value) : result value :=
  let* plain := is_plain_object element in
  if plain then rmap VMap (rec element)
  else load_codec appContextMap termCodecMap k element.

(** Lines 95-118: the decoded value of one entry. *)
Definition gen_value (k : key) (v : value) : result value :=
  match v with
  | VMap _ => rmap VMap (rec v)
  | VArr elements => rmap VArr (mapM (gen_element k) elements)
  | _ => load_codec appContextMap termCodecMap k v
  end.

(** Lines 83-120: one turn of the loop. *)
Definition gen_entry (k : key) (v : value) (decodingMap : js_map) : result js_map :=
  let* term :=
    match termCodecMap with
    | Some tcm =>
        match tcm !! k with
        | None => Err (unknown_term k)
        | Some entry => Ok (tc_value entry)
        end
    | None => Ok k
    end in
  let* decodedValue := gen_value k v in
  Ok (map_set term decodedValue decodingMap).

Fixpoint gen_entries (entries : js_map) (decodingMap : js_map) : result js_map :=
  match entries with
  | [] => Ok decodingMap
  | (k, v) :: rest =>
      let* decodingMap' := gen_entry k v decodingMap in
      gen_entries rest decodingMap'
  end.

(** The entries of an array are its elements under their indices. *)
Fixpoint gen_indexed (i : Z) (elements : list value) (decodingMap : js_map)
  : result js_map :=
  match elements with
  | [] => Ok decodingMap
  | v :: rest =>
      let* decodingMap' := gen_entry (KNum i) v decodingMap in
      gen_indexed (i + 1) rest decodingMap'
  end.
End BuilderBody.

(** Lines 71-124.  The recursion is on the structure of [cborMap]: the
    nested calls are on map values and on plain-object elements, and they
    omit [appTermMap]. *)
Fixpoint _generateDecodingMap (cborMap : value)
    (appContextMap : option AppContextMap) (appTermMap : option AppTermMap)
    (termCodecMap : option TermCodecMap) {struct cborMap} : result js_map :=
  let* decodingMap := codec_entry appTermMap termCodecMap in
  let rec := fun nested => _generateDecodingMap nested appContextMap None termCodecMap in
  match cborMap with
  | VMap entries =>
      gen_entries rec appContextMap termCodecMap entries decodingMap
  | VArr elements =>
      gen_indexed rec appContextMap termCodecMap 0 elements decodingMap
  | VBytes bs =>
      (* the entries of a byte array are numbers: no nested call *)
      gen_indexed (fun _ => Err entries_not_a_function) appContextMap termCodecMap
        0 (List.map VNum bs) decodingMap
  | _ => Err entries_not_a_function
  end.

(** *** Tree realizer: [_decodeMap] *)

Definition unknown_encoding (k : key) (v : value) : error :=
  CborldError "ERR_UNKNOWN_CBORLD_ENCODING"
    ("Unknown encoding for '" +:+ key_string k +:+
     "' detected in CBOR-LD input: " +:+ inspect v).

Definition stack_overflow : error :=
  RangeError "Maximum call stack size exceeded".

(** Truthiness of [value.decodeCBOR]; a codec instance has the method, by
    the contract of the codec classes. *)
Definition has_decodeCBOR (v : value) : result bool :=
  match v with
  | VCodec _ => Ok true
  | _ => rmap truthy (get_prop v "decodeCBOR")
  end.

(** [value.decodeCBOR()] *)
Definition call_decodeCBOR (v : value) : result value :=
  match v with
  | VCodec instance => decodeCBOR instance
  | _ => Err (TypeError "value.decodeCBOR is not a function")
  end.

Section RealizerBody.
(** [rec tt] is the recursive call [_decodeMap(decodingMap)]. *)
Variable rec : unit -> result js_object.

(** Lines 137-146: the callback of [value.forEach]; it tests [value],
    the array, and assigns to [jsonldDocument[key]]. *)
Definition realize_element (k : key) (v : value) (element : value)
    (jsonldDocument : js_object) : result js_object :=
  let* decodedSubvalue :=
    if is_Map v then rmap VObj (rec tt)
    else if String.eqb (typeof v) "function" then call_decodeCBOR v
    else Ok element in
  Ok (obj_set (key_string k) decodedSubvalue jsonldDocument).

Fixpoint realize_elements (k : key) (v : value) (elements : list value)
    (jsonldDocument : js_object) : result js_object :=
  match elements with
  | [] => Ok jsonldDocument
  | element :: rest =>
      let* jsonldDocument' := realize_element k v element jsonldDocument in
      realize_elements k v rest jsonldDocument'
  end.

(** Lines 131-156: one turn of the loop. *)
Definition realize_entry (k : key) (v : value) (jsonldDocument : js_object)
  : result js_object :=
  match v with
  | VMap _ =>
      let* decodedValue := rmap VObj (rec tt) in
      Ok (obj_set (key_string k) decodedValue jsonldDocument)
  | VArr elements =>
      let decodedValue := VArr [] in
      let* jsonldDocument' := realize_elements k v elements jsonldDocument in
      Ok (obj_set (key_string k) decodedValue jsonldDocument')
  | _ =>
      let* codec_bearing := has_decodeCBOR v in
      if codec_bearing then
        let* decodedValue := call_decodeCBOR v in
        Ok (obj_set (key_string k) decodedValue jsonldDocument)
      else Err (unknown_encoding k v)
  end.

Fixpoint realize_entries (entries : js_map) (jsonldDocument : js_object)
  : result js_object :=
  match entries with
  | [] => Ok jsonldDocument
  | (k, v) :: rest =>
      let* jsonldDocument' := realize_entry k v jsonldDocument in
      realize_entries rest jsonldDocument'
  end.
End RealizerBody.

(** The nested call of line 134 is on [decodingMap] itself, so nothing
    decreases but the room left on the call stack, [depth]. *)
Fixpoint _decodeMap (depth : nat) (decodingMap : js_map) : result js_object :=
  match depth with
  | O => Err stack_overflow
  | S depth' =>
      realize_entries (fun _ => _decodeMap depth' decodingMap) decodingMap ∅
  end.

(** *** Header dispatch: [fromCborld] *)

(** Calls into the context and term resolver ([./context], [./codec]);
    the document loader is handed to [getTermCodecMap] and to nothing
    else. *)
Variant resolverE : Type -> Type :=
| GetCborldContextUrls (cborMap : value) (appContextMap : option AppContextMap)
    : resolverE (result (list string))
| GetTermCodecMap (contextUrls : list string) (appTermMap : option AppTermMap)
    (documentLoader : DocumentLoader) (decode : bool)
    : resolverE (result (option TermCodecMap)).

(** Calls of the [diagnose] callback. *)
Variant diagnoseE : Type -> Type :=
| Diagnose (message : value) : diagnoseE unit.

Definition decodeE : Type -> Type := resolverE +' diagnoseE.

Definition resolve {R : Type} (e : resolverE R) : itree decodeE R :=
  ITree.trigger (inl1 e).

Definition report (message : value) : itree decodeE unit :=
  ITree.trigger (inr1 (Diagnose message)).

(** Sequencing of computations that may throw. *)
Definition bind_ok {E : Type -> Type} {A B : Type} (t : itree E (result A))
    (k : A -> itree E (result B)) : itree E (result B) :=
  ITree.bind t (fun r => match r with Ok a => k a | Err e => Ret (Err e) end).

Definition not_cborld : error :=
  CborldError "ERR_NOT_CBORLD"
    "Input is not valid CBOR-LD; missing CBOR-LD header (0x0500 or 0x501).".

(** Lines 59-64. *)
Definition diagnostics (diagnose : bool) (cborMap jsonldDocument : value)
  : itree decodeE unit :=
  if diagnose then
    ITree.bind (report (VStr "Diagnostic CBOR Object:")) (fun _ =>
    ITree.bind (report (VStr (inspect_deep cborMap))) (fun _ =>
    ITree.bind (report (VStr "Diagnostic JSON-LD Object:")) (fun _ =>
    report jsonldDocument)))
  else Ret tt.

(** The same calls, as a computation over the diagnostic sink alone. *)
Definition diagnose_calls (diagnose : bool) (cborMap jsonldDocument : value)
  : itree diagnoseE unit :=
  if diagnose then
    ITree.bind (ITree.trigger (Diagnose (VStr "Diagnostic CBOR Object:"))) (fun _ =>
    ITree.bind (ITree.trigger (Diagnose (VStr (inspect_deep cborMap)))) (fun _ =>
    ITree.bind (ITree.trigger (Diagnose (VStr "Diagnostic JSON-LD Object:"))) (fun _ =>
    ITree.trigger (Diagnose jsonldDocument))))
  else Ret tt.

(** Lines 44-53. *)
Definition decompress (payload : value) (appContextMap : option AppContextMap)
    (appTermMap : option AppTermMap) (documentLoader : DocumentLoader)
  : itree decodeE (result value) :=
  bind_ok (resolve (GetCborldContextUrls payload appContextMap)) (fun contextUrls =>
  bind_ok (resolve (GetTermCodecMap contextUrls appTermMap documentLoader true))
    (fun termCodecMap =>
  Ret (let* decodingMap :=
         _generateDecodingMap payload appContextMap appTermMap termCodecMap in
       rmap VObj (_decodeMap stack_limit decodingMap)))).

Definition fromCborld (cborldBytes : list Z) (appContextMap : option AppContextMap)
    (appTermMap : option AppTermMap) (documentLoader : DocumentLoader)
    (diagnose : bool) : itree decodeE (result value) :=
  bind_ok (Ret (cbor_decode cborldBytes)) (fun cborMap =>
  bind_ok (Ret (get_prop cborMap "tag")) (fun tag =>
  bind_ok
    (if is_number tag 0x0500 then
       Ret (get_prop cborMap "value")
     else if is_number tag 0x0501 then
       bind_ok (Ret (get_prop cborMap "value")) (fun payload =>
       decompress payload appContextMap appTermMap documentLoader)
     else Ret (Err not_cborld))
    (fun jsonldDocument =>
       ITree.bind (diagnostics diagnose cborMap jsonldDocument) (fun _ =>
       Ret (Ok jsonldDocument))))).
End Decode.

(** ** Relations used to state the properties *)

Section Relations.
Context {H : Host}.

(** The call the builder makes for a nested map: no [appTermMap]. *)
Definition nested_call (appContextMap : option AppContextMap)
    (termCodecMap : option (gmap key (tcm_entry Codec)))
    (nested : val CodecInstance) : result (list (key * val CodecInstance)) :=
  _generateDecodingMap nested appContextMap None termCodecMap.

(** The maps the builder is applied to: the map it is given and, through
    map-valued entries, the maps nested in it. *)
Inductive visited : val CodecInstance -> val CodecInstance -> Prop :=
| visited_here entries : visited (VMap entries) (VMap entries)
| visited_nested entries k m inner :
    In (k, VMap m) entries -> visited (VMap m) inner ->
    visited (VMap entries) inner.

(** The decoding maps nested in a decoding map, at any depth. *)
Inductive nested_in :
  list (key * val CodecInstance) -> list (key * val CodecInstance) -> Prop :=
| nested_child dm k m : In (k, VMap m) dm -> nested_in dm m
| nested_deeper dm k m inner :
    In (k, VMap m) dm -> nested_in m inner -> nested_in dm inner.

(** What [entries()] yields on an array: the elements under their indices. *)
Fixpoint index_entries (i : Z) (elements : list (val CodecInstance))
  : list (key * val CodecInstance) :=
  match elements with
  | [] => []
  | v :: rest => (KNum i, v) :: index_entries (i + 1) rest
  end.

(** The term under which the builder files the entry of key [k]. *)
Definition term_of (termCodecMap : option (gmap key (tcm_entry Codec))) (k : key)
  : option key :=
  match termCodecMap with
  | Some tcm => tc_value <$> tcm !! k
  | None => Some k
  end.
End Relations.

(** ** Shapes of values *)

Section Shapes.
Context {H : Host}.

(** An array element the builder neither recurses into nor trips over:
    anything but [null] and a plain object. *)
Definition opaque_element (element : val CodecInstance) : bool :=
  match element with
  | VNull => false
  | VObj props => negb (bool_decide (props !! "constructor" = None))
  | _ => true
  end.

(** A value the builder keeps as it is when no term codec map is active. *)
Definition kept_as_is (v : val CodecInstance) : bool :=
  match v with
  | VMap _ => false
  | VArr elements => forallb opaque_element elements
  | _ => true
  end.

(** A value the builder loads into a codec as one piece. *)
Definition is_leaf (v : val CodecInstance) : bool :=
  match v with
  | VMap _ | VArr _ => false
  | _ => true
  end.

(** What the realizer binds a term to, for the two kinds of entries it can
    complete: the empty array for an array, the result of [decodeCBOR] for a
    codec instance. *)
Definition realized (v out : val CodecInstance) : Prop :=
  (is_Array v = true /\ out = VArr []) \/
  (exists instance, v = VCodec instance /\ decodeCBOR instance = Ok out).

(** Values of a decoding map built under an active term codec map: codec
    instances, arrays of codec instances, and maps whose values are of that
    kind in turn, at every depth. *)
Inductive codec_leafed : val CodecInstance -> Prop :=
| leafed_codec instance : codec_leafed (VCodec instance)
| leafed_array elements :
    (forall element, In element elements -> exists instance, element = VCodec instance) ->
    codec_leafed (VArr elements)
| leafed_map m :
    (forall k v, In (k, v) m -> codec_leafed v) -> codec_leafed (VMap m).

(** What the builder makes of an entry [kv] whose value is a leaf, under the
    term codec map [t]: the entry [tx]. *)
Definition loaded_as (acm : option AppContextMap) (t : gmap key (tcm_entry Codec))
    (kv tx : key * val CodecInstance) : Prop :=
  is_leaf (snd kv) = true /\
  exists entry instance,
    t !! fst kv = Some entry /\
    codec_set (tc_codec entry) (snd kv) acm t = Ok instance /\
    tx = (tc_value entry, VCodec instance).

(** Lines 51-53: the builder, then the realizer. *)
Definition decode_payload (payload : val CodecInstance)
    (appContextMap : option AppContextMap) (appTermMap : option (gmap string Codec))
    (termCodecMap : option (gmap key (tcm_entry Codec)))
  : result (val CodecInstance) :=
  let* decodingMap :=
    _generateDecodingMap payload appContextMap appTermMap termCodecMap in
  rmap VObj (_decodeMap stack_limit decodingMap).
End Shapes.

(** ** A sample host *)

Module Sample.
(** The codec classes [decode.js] imports. *)
Inductive codec : Type :=
| Base64PadCodec | CodecMapCodec | CompressedCborldCodec | UrlCodec
| ContextCodec | SimpleTypeCodec | UncompressedCborldCodec | XsdDateTimeCodec.

(** Modelled from the spec: the codec classes are defined outside
    [decode.js].  An instance holds what it was loaded with; loading never
    throws; materializing is the pass-through the spec states for the
    SimpleType variant, and for the CodecMap variant it gives back the
    structure of the application term map (one property per term). *)
Inductive instance : Type :=
| Loaded (c : codec) (v : val instance)
| LoadedTerms (terms : gmap string codec).

Definition codec_name (c : codec) : string :=
  match c with
  | Base64PadCodec => "Base64PadCodec"
  | CodecMapCodec => "CodecMapCodec"
  | CompressedCborldCodec => "CompressedCborldCodec"
  | UrlCodec => "UrlCodec"
  | ContextCodec => "ContextCodec"
  | SimpleTypeCodec => "SimpleTypeCodec"
  | UncompressedCborldCodec => "UncompressedCborldCodec"
  | XsdDateTimeCodec => "XsdDateTimeCodec"
  end.

Definition materialize (i : instance) : result (val instance) :=
  match i with
  | Loaded _ v => Ok v
  | LoadedTerms terms => Ok (VObj ((fun c => VStr (codec_name c)) <$> terms))
  end.

(** The answers of the CBOR decoder on the byte strings used below:
    tag 0x0500 around [{"a": 1}], tag 0x0502 around [{}], and tag 0x0501
    around the map [1 => 5]. *)
Definition decode_bytes (bytes : list Z) : result (val instance) :=
  if decide (bytes = [0xd9; 0x05; 0x00; 0xa1; 0x61; 0x61; 0x01]) then
    Ok (VTagged 0x0500 (VObj {[ "a" := VNum 1 ]}))
  else if decide (bytes = [0xd9; 0x05; 0x02; 0xa0]) then
    Ok (VTagged 0x0502 (VObj ∅))
  else if decide (bytes = [0xd9; 0x05; 0x01; 0xa1; 0x01; 0x05]) then
    Ok (VTagged 0x0501 (VMap [(KNum 1, VNum 5)]))
  else Err (HostError "Unexpected data").

(** A rendering in the manner of [util.inspect], for scalars. *)
Definition render (v : val instance) : string :=
  match v with
  | VUndef => "undefined"
  | VNull => "null"
  | VBool true => "true"
  | VBool false => "false"
  | VNum n => key_string (KNum n)
  | VStr s => "'" +:+ s +:+ "'"
  | _ => "[Object]"
  end.

Definition host : Host := {|
  Codec := codec;
  CodecInstance := instance;
  AppContextMap := gmap string Z;
  DocumentLoader := unit;
  codec_set := fun c v _ _ => Ok (Loaded c v);
  codecMap_set := fun terms _ => Ok (LoadedTerms terms);
  decodeCBOR := materialize;
  cbor_decode := decode_bytes;
  inspect := render;
  inspect_deep := render;
  stack_limit := 64
|}.

(** A term codec map: the reserved [@codec] entry and two terms. *)
Definition termCodecMap : gmap key (tcm_entry codec) :=
  {[ KStr "@codec" := TcmEntry (KStr "@codec") CodecMapCodec;
     KNum 1 := TcmEntry (KStr "name") SimpleTypeCodec;
     KNum 2 := TcmEntry (KStr "knows") SimpleTypeCodec ]}.

Definition appTermMap : gmap string codec :=
  {[ "amount" := SimpleTypeCodec ]}.
End Sample.

(** ** A host with a codec that can fail *)

Module Strict.
(** As [Sample.host], but the date-time codec materializes strings only and
    the decoder knows one more input. *)
Definition materialize (i : Sample.instance) : result (val Sample.instance) :=
  match i with
  | Sample.Loaded Sample.XsdDateTimeCodec (VStr s) => Ok (VStr s)
  | Sample.Loaded Sample.XsdDateTimeCodec _ =>
      Err (HostError "Invalid date-time")
  | _ => Sample.materialize i
  end.

(** The CBOR decoder answers [null] on the byte 0xf6. *)
Definition decode_bytes (bytes : list Z) : result (val Sample.instance) :=
  if decide (bytes = [0xf6]) then Ok VNull else Sample.decode_bytes bytes.

Definition host : Host := {|
  Codec := Sample.codec;
  CodecInstance := Sample.instance;
  AppContextMap := gmap string Z;
  DocumentLoader := unit;
  codec_set := fun c v _ _ => Ok (Sample.Loaded c v);
  codecMap_set := fun terms _ => Ok (Sample.LoadedTerms terms);
  decodeCBOR := materialize;
  cbor_decode := decode_bytes;
  inspect := Sample.render;
  inspect_deep := Sample.render;
  stack_limit := 64
|}.
End Strict.

(** * Properties *)

Lemma rbind_ok {A B : Type} (r : result A) (k : A -> result B) (b : B) :
  rbind r k = Ok b -> exists a, r = Ok a /\ k a = Ok b.
Proof. destruct r as [a|e]; simpl; [eauto | discriminate]. Qed.

Lemma rmap_ok {A B : Type} (f : A -> B) (r : result A) (b : B) :
  rmap f r = Ok b -> exists a, r = Ok a /\ b = f a.
Proof.
  unfold rmap. intros Hr. apply rbind_ok in Hr as (a & -> & Hb).
  exists a. split; congruence.
Qed.

Section BuilderFacts.
Context {H : Host}.

Abbreviation value := (val CodecInstance).
Abbreviation js_map := (list (key * val CodecInstance)).
Abbreviation TermCodecMap := (gmap key (tcm_entry Codec)).
Abbreviation AppTermMap := (gmap string Codec).

Lemma generateDecodingMap_Map entries acm atm tcm :
  _generateDecodingMap (VMap entries) acm atm tcm =
  let* decodingMap := codec_entry atm tcm in
  gen_entries (nested_call acm tcm) acm tcm entries decodingMap.
Proof. reflexivity. Qed.

Lemma codec_entry_absent tcm : codec_entry None tcm = Ok [].
Proof. reflexivity. Qed.

Section Loop.
Variable rec : value -> result js_map.
Variable acm : option AppContextMap.
Variable tcm : option TermCodecMap.

Lemma gen_entries_app before after dm :
  gen_entries rec acm tcm (before ++ after) dm =
  let* dm' := gen_entries rec acm tcm before dm in
  gen_entries rec acm tcm after dm'.
Proof.
  revert dm. induction before as [|[k v] before IH]; intros dm; simpl.
  - reflexivity.
  - destruct (gen_entry rec acm tcm k v dm) as [dm'|e]; simpl; auto.
Qed.



End Loop.



End BuilderFacts.



(** An unknown key two maps down fails the whole build as well. *)
Example unknown_term_nested :
  is_ok (_generateDecodingMap (H := Sample.host)
           (VMap [(KNum 2, VMap [(KNum 2, VMap [(KNum 7, VNum 0)])])])
           None (Some Sample.appTermMap) (Some Sample.termCodecMap)) = false.
Proof. vm_compute. reflexivity. Qed.

(** The builder and the realizer in sequence on [{1 => "Alice"}], without
    and with an application term map. *)
Example decode_name :
  (let* decodingMap :=
     _generateDecodingMap (H := Sample.host) (VMap [(KNum 1, VStr "Alice")])
       None None (Some Sample.termCodecMap) in
   _decodeMap 64 decodingMap) =
  Ok {[ "name" := VStr "Alice" ]}.
Proof. vm_compute. reflexivity. Qed.

Example decode_name_with_appTermMap :
  (let* decodingMap :=
     _generateDecodingMap (H := Sample.host) (VMap [(KNum 1, VStr "Alice")])
       None (Some Sample.appTermMap) (Some Sample.termCodecMap) in
   _decodeMap 64 decodingMap) =
  Ok {[ "@codec" := VObj {[ "amount" := VStr "SimpleTypeCodec" ]};
        "name" := VStr "Alice" ]}.
Proof. vm_compute. reflexivity. Qed.

Section RealizerFacts.
Context {H : Host}.

Abbreviation value := (val CodecInstance).
Abbreviation js_map := (list (key * val CodecInstance)).
Abbreviation js_object := (gmap string (val CodecInstance)).

Lemma realize_entries_app rec (before after : js_map) (doc : js_object) :
  realize_entries rec (before ++ after) doc =
  let* doc' := realize_entries rec before doc in
  realize_entries rec after doc'.
Proof.
  revert doc. induction before as [|[k v] before IH]; intros doc; simpl.
  - reflexivity.
  - destruct (realize_entry rec k v doc) as [doc'|e]; simpl; auto.
Qed.

(** The callback of the array branch tests the array, not the element:
    it stores the element as it is. *)
Lemma realize_element_array rec k elements element (doc : js_object) :
  realize_element rec k (VArr elements) element doc =
  Ok (obj_set (key_string k) element doc).
Proof. reflexivity. Qed.

Lemma realize_elements_array rec k elements rest (doc : js_object) :
  exists doc', realize_elements rec k (VArr elements) rest doc = Ok doc'.
Proof.
  revert doc. induction rest as [|element rest IH]; intros doc; simpl; eauto.
Qed.

(** Whatever the elements, an array is realized as the empty array. *)
Lemma realize_entry_array rec k elements (doc : js_object) :
  exists doc',
    realize_entry rec k (VArr elements) doc =
    Ok (obj_set (key_string k) (VArr []) doc').
Proof.
  simpl. destruct (realize_elements_array rec k elements elements doc) as [doc' ->].
  simpl. eauto.
Qed.

(** Only map-valued entries make the nested call. *)
Lemma realize_entry_rec_irrelevant rec1 rec2 k v (doc : js_object) :
  is_Map v = false ->
  realize_entry rec1 k v doc = realize_entry rec2 k v doc.
Proof.
  destruct v; simpl; try reflexivity; try discriminate.
  intros _.
  assert (forall rest d,
             realize_elements rec1 k (VArr elements) rest d =
             realize_elements rec2 k (VArr elements) rest d) as ->; [|reflexivity].
  induction rest as [|element rest IH]; intros d; simpl; auto.
Qed.

Lemma realize_entries_rec_irrelevant rec1 rec2 (entries : js_map) (doc : js_object) :
  (forall k v, In (k, v) entries -> is_Map v = false) ->
  realize_entries rec1 entries doc = realize_entries rec2 entries doc.
Proof.
  revert doc. induction entries as [|[k v] entries IH]; intros doc Hno; simpl.
  - reflexivity.
  - rewrite (realize_entry_rec_irrelevant rec1 rec2) by (apply (Hno k); left; reflexivity).
    destruct (realize_entry rec2 k v doc) as [doc'|e]; simpl; auto.
    apply IH. intros k' v' Hin. apply (Hno k'). right. exact Hin.
Qed.

Lemma realize_entries_nested_fails rec before k m after (doc : js_object) :
  is_ok (rec tt) = false ->
  is_ok (realize_entries rec (before ++ (k, VMap m) :: after) doc) = false.
Proof.
  intros Hrec. rewrite realize_entries_app.
  destruct (realize_entries rec before doc) as [doc'|e]; simpl; auto.
  destruct (rec tt); simpl in *; [discriminate | reflexivity].
Qed.

(** A decoding map with a map-valued entry is never realized: the nested
    call is on the same decoding map, which holds the same entry. *)
Lemma decodeMap_nested_never_ok depth (decodingMap : js_map) k m :
  In (k, VMap m) decodingMap ->
  is_ok (_decodeMap depth decodingMap) = false.
Proof.
  intros Hin. apply in_split in Hin as (before & after & ->).
  induction depth as [|depth IH]; simpl.
  - reflexivity.
  - apply realize_entries_nested_fails. exact IH.
Qed.

Lemma decodeMap_ok_no_map depth (decodingMap : js_map) (doc : js_object) :
  _decodeMap depth decodingMap = Ok doc ->
  forall k v, In (k, v) decodingMap -> is_Map v = false.
Proof.
  intros Hok k v Hin. destruct v; try reflexivity.
  pose proof (decodeMap_nested_never_ok depth decodingMap k entries Hin) as Hf.
  rewrite Hok in Hf. discriminate.
Qed.
End RealizerFacts.

(** C1. The claim asks that a map-valued entry be realized by recursing on
    that nested map.  Line 134 recurses on the decoding map being walked:
    for the decoding map [{a => {b => codec}}] the realizer re-enters itself
    on that same map until the call stack is exhausted, whatever the room on
    the stack, and no document with [a] bound to the realization of
    [{b => codec}] is ever returned. *)
Theorem nested_map_realization_overflows (H : Host) (instance : CodecInstance)
    (depth : nat) :
  _decodeMap depth [(KStr "a", VMap [(KStr "b", VCodec instance)])] =
  Err (RangeError "Maximum call stack size exceeded").
Proof.
  induction depth as [|depth IH].
  - reflexivity.
  - simpl. rewrite IH. reflexivity.
Qed.

(** C2. The claim asks that an array be realized element by element into an
    array of the same length.  Lines 135-146 test the array instead of the
    element and assign instead of collecting: for the decoding map
    [{a => [codec]}] the document returned binds [a] to the empty array and
    the codec is never asked to materialize. *)
Theorem array_realization_is_empty (H : Host) (instance : CodecInstance)
    (depth : nat) :
  _decodeMap (S depth) [(KStr "a", VArr [VCodec instance])] =
  Ok {[ "a" := VArr [] ]}.
Proof.
  simpl. unfold obj_set. simpl.
  rewrite insert_insert_eq. reflexivity.
Qed.

(** C7, as stated, fails on [null]: reading [value.decodeCBOR] throws a
    [TypeError] before the test can choose the last branch.  The builder
    produces such a decoding map when no term codec map is active. *)
Lemma unknown_encoding_null_counterexample :
  _generateDecodingMap (H := Sample.host) (VMap [(KNum 1, VNull)]) None None None =
  Ok [(KNum 1, VNull)] /\
  _decodeMap (H := Sample.host) 64 [(KNum 1, VNull)] =
  Err (TypeError "Cannot read property 'decodeCBOR' of null or undefined").
Proof. split; vm_compute; reflexivity. Qed.

(** C7, amended.  A value that is neither [null] nor [undefined], neither a
    map nor an array, and whose [decodeCBOR] property is missing or falsy
    makes the realizer throw [ERR_UNKNOWN_CBORLD_ENCODING] when it reaches
    the pair, that is when the pairs before it are realized without error;
    the message carries the key and [util.inspect] of the value. *)
Theorem unknown_encoding_raised {H : Host} (depth : nat)
    (before after : list (key * val CodecInstance)) (k : key)
    (v : val CodecInstance) (doc : gmap string (val CodecInstance)) :
  _decodeMap (S depth) before = Ok doc ->
  is_Map v = false ->
  is_Array v = false ->
  has_decodeCBOR v = Ok false ->
  _decodeMap (S depth) (before ++ (k, v) :: after) =
  Err (CborldError "ERR_UNKNOWN_CBORLD_ENCODING"
         ("Unknown encoding for '" +:+ key_string k +:+
          "' detected in CBOR-LD input: " +:+ inspect v)).
Proof.
  intros Hbefore Hmap Harr Hdec.
  pose proof (decodeMap_ok_no_map _ _ _ Hbefore) as Hno.
  simpl in Hbefore |- *. rewrite realize_entries_app.
  rewrite (realize_entries_rec_irrelevant _ (fun _ => _decodeMap depth before))
    by exact Hno.
  rewrite Hbefore. simpl.
  destruct v; simpl in *; try discriminate; try reflexivity.
  injection Hdec as ->. reflexivity.
Qed.

Lemma unknown_encoding_raised_witness :
  _decodeMap (H := Sample.host) 1
    [(KStr "x", VCodec (Sample.Loaded Sample.SimpleTypeCodec (VNum 1)));
     (KNum 1, VNum 5)] =
  Err (CborldError "ERR_UNKNOWN_CBORLD_ENCODING"
         "Unknown encoding for '1' detected in CBOR-LD input: 5").
Proof.
  exact (unknown_encoding_raised (H := Sample.host) 0
           [(KStr "x", VCodec (Sample.Loaded Sample.SimpleTypeCodec (VNum 1)))]
           [] (KNum 1) (VNum 5) _ eq_refl eq_refl eq_refl eq_refl).
Defined.

(** C3, as stated, fails: the builder has no error for an array inside an
    array.  With an active term codec map the inner array is loaded into an
    instance of the key's codec; with none it is kept as it is. *)
Lemma array_of_arrays_counterexample :
  _generateDecodingMap (H := Sample.host)
    (VMap [(KNum 1, VArr [VArr [VNum 5]])]) None None (Some Sample.termCodecMap) =
  Ok [(KStr "name",
       VArr [VCodec (Sample.Loaded Sample.SimpleTypeCodec (VArr [VNum 5]))])] /\
  _generateDecodingMap (H := Sample.host)
    (VMap [(KNum 1, VArr [VArr [VNum 5]])]) None None None =
  Ok [(KNum 1, VArr [VArr [VNum 5]])].
Proof. split; vm_compute; reflexivity. Qed.

Lemma mapM_app_cons {A B : Type} (f : A -> result B) (front back : list A) (x : A) :
  mapM f (front ++ x :: back) =
  let* fs := mapM f front in
  let* y := f x in
  let* bs := mapM f back in
  Ok (fs ++ y :: bs)%list.
Proof.
  induction front as [|a front IH]; simpl.
  - destruct (f x) as [y|e]; simpl; [|reflexivity].
    destruct (mapM f back); reflexivity.
  - destruct (f a) as [y0|e]; simpl; [|reflexivity].
    rewrite IH. destruct (mapM f front) as [fs|e]; simpl; [|reflexivity].
    destruct (f x) as [y|e]; simpl; [|reflexivity].
    destruct (mapM f back); reflexivity.
Qed.

(** C3, amended.  An array element that is itself an array is handled as a
    scalar element is, wherever it stands in its array and whatever map the
    array is a value of.  With an active term codec map the element is
    loaded whole into a fresh instance of the key's codec, and its part of
    the build succeeds or fails as that load does; with no term codec map
    it is kept unchanged.  It keeps its place among the decoded elements,
    and the entry of the array is filed under the term of its key after the
    entries before it.  The builder raises no error of its own for it. *)
Theorem array_element_loaded_like_scalar {H : Host}
    (acm : option AppContextMap) (t : gmap key (tcm_entry Codec)) (k : key)
    (entry : tcm_entry Codec) (inner : list (val CodecInstance)) :
  t !! k = Some entry ->
  (forall rec,
      gen_element rec acm (Some t) k (VArr inner) =
      let* instance := codec_set (tc_codec entry) (VArr inner) acm t in
      Ok (VCodec instance)) /\
  (forall rec, gen_element rec acm None k (VArr inner) = Ok (VArr inner)) /\
  (forall rec tcm front back,
      gen_value rec acm tcm k (VArr (front ++ VArr inner :: back)) =
      let* fs := mapM (gen_element rec acm tcm k) front in
      let* x := gen_element rec acm tcm k (VArr inner) in
      let* bs := mapM (gen_element rec acm tcm k) back in
      Ok (VArr (fs ++ x :: bs))) /\
  (forall atm before after elements dm,
      _generateDecodingMap (VMap before) acm atm (Some t) = Ok dm ->
      _generateDecodingMap (VMap (before ++ (k, VArr elements) :: after))
        acm atm (Some t) =
      let* xs := mapM (gen_element (nested_call acm (Some t)) acm (Some t) k)
                   elements in
      gen_entries (nested_call acm (Some t)) acm (Some t) after
        (map_set (tc_value entry) (VArr xs) dm)).
Proof.
  intros Hk. split; [|split; [|split]].
  - intros rec. unfold gen_element, load_codec, tcm_get. simpl. rewrite Hk.
    reflexivity.
  - reflexivity.
  - intros rec tcm front back. simpl. rewrite mapM_app_cons. unfold rmap.
    destruct (mapM (gen_element rec acm tcm k) front) as [fs|e]; simpl; [|reflexivity].
    destruct (gen_element rec acm tcm k (VArr inner)) as [x|e]; simpl; [|reflexivity].
    destruct (mapM (gen_element rec acm tcm k) back); reflexivity.
  - intros atm before after elements dm. rewrite !generateDecodingMap_Map.
    destruct (codec_entry atm (Some t)) as [dm0|e]; simpl; [|discriminate].
    intros Hbefore. rewrite gen_entries_app, Hbefore. simpl.
    unfold gen_entry at 1. rewrite Hk. simpl. unfold rmap.
    destruct (mapM _ elements); reflexivity.
Qed.

Lemma array_element_loaded_like_scalar_witness :
  _generateDecodingMap (H := Sample.host)
    (VMap [(KNum 1, VStr "Alice");
           (KNum 2, VArr [VStr "Bob"; VArr [VStr "x"; VStr "y"]])])
    None None (Some Sample.termCodecMap) =
  Ok [(KStr "name", VCodec (Sample.Loaded Sample.SimpleTypeCodec (VStr "Alice")));
      (KStr "knows",
       VArr [VCodec (Sample.Loaded Sample.SimpleTypeCodec (VStr "Bob"));
             VCodec (Sample.Loaded Sample.SimpleTypeCodec
                       (VArr [VStr "x"; VStr "y"]))])].
Proof.
  exact (proj2 (proj2 (proj2
           (array_element_loaded_like_scalar (H := Sample.host) None
              Sample.termCodecMap (KNum 2)
              (TcmEntry (KStr "knows") Sample.SimpleTypeCodec)
              [VStr "x"; VStr "y"] eq_refl)))
           None [(KNum 1, VStr "Alice")] []
           [VStr "Bob"; VArr [VStr "x"; VStr "y"]] _ eq_refl).
Defined.

Section MapFacts.
Context {I : Type}.

Lemma map_get_map_set (k k' : key) (v : val I) (m : list (key * val I)) :
  map_get k (map_set k' v m) = if decide (k' = k) then Some v else map_get k m.
Proof.
  induction m as [|[k0 v0] m IH]; simpl.
  - reflexivity.
  - destruct (decide (k0 = k')) as [->|Hne]; simpl.
    + destruct (decide (k' = k)); reflexivity.
    + rewrite IH. destruct (decide (k0 = k)) as [->|]; [|reflexivity].
      destruct (decide (k' = k)); congruence.
Qed.

Lemma in_map_set (k k' : key) (v v' : val I) (m : list (key * val I)) :
  In (k, v) (map_set k' v' m) -> (k, v) = (k', v') \/ In (k, v) m.
Proof.
  induction m as [|[k0 v0] m IH]; simpl.
  - intros [Heq|[]]. left. congruence.
  - destruct (decide (k0 = k')) as [->|Hne]; simpl.
    + intros [Heq|Hin]; [left; congruence | right; right; exact Hin].
    + intros [Heq|Hin]; [right; left; exact Heq|].
      destruct (IH Hin); auto.
Qed.
End MapFacts.

Section SynthesisFacts.
Context {H : Host}.

Abbreviation value := (val CodecInstance).
Abbreviation js_map := (list (key * val CodecInstance)).
Abbreviation TermCodecMap := (gmap key (tcm_entry Codec)).
Abbreviation AppTermMap := (gmap string Codec).

Section Loop.
Variable rec : value -> result js_map.
Variable acm : option AppContextMap.
Variable tcm : option TermCodecMap.

Lemma gen_indexed_entries i elements dm :
  gen_indexed rec acm tcm i elements dm =
  gen_entries rec acm tcm (index_entries i elements) dm.
Proof.
  revert i dm. induction elements as [|v rest IH]; intros i dm; simpl.
  - reflexivity.
  - destruct (gen_entry rec acm tcm (KNum i) v dm); simpl; auto.
Qed.

Lemma gen_entry_ok k v dm dm' :
  gen_entry rec acm tcm k v dm = Ok dm' ->
  exists term dv,
    term_of tcm k = Some term /\ gen_value rec acm tcm k v = Ok dv /\
    dm' = map_set term dv dm.
Proof.
  unfold gen_entry, term_of. intros Hok.
  apply rbind_ok in Hok as (term & Hterm & Hok).
  apply rbind_ok in Hok as (dv & Hdv & Hok).
  exists term, dv. repeat split; [|exact Hdv|congruence].
  destruct tcm as [t|]; [|congruence].
  destruct (t !! k); simpl; congruence.
Qed.

Lemma gen_entry_of_parts k v dm term dv :
  term_of tcm k = Some term -> gen_value rec acm tcm k v = Ok dv ->
  gen_entry rec acm tcm k v dm = Ok (map_set term dv dm).
Proof.
  unfold gen_entry, term_of. intros Hterm ->.
  destruct tcm as [t|]; simpl in *.
  - destruct (t !! k); simpl in *; [|discriminate].
    injection Hterm as ->. reflexivity.
  - injection Hterm as ->. reflexivity.
Qed.

(** Keys only accumulate along the loop. *)
Lemma gen_entries_keeps entries dm dm' k :
  gen_entries rec acm tcm entries dm = Ok dm' ->
  is_Some (map_get k dm) -> is_Some (map_get k dm').
Proof.
  revert dm. induction entries as [|[k0 v0] rest IH]; intros dm; simpl.
  - intros [= ->]. auto.
  - intros Hok Hk. apply rbind_ok in Hok as (dm1 & Hentry & Hrest).
    apply (IH dm1 Hrest).
    apply gen_entry_ok in Hentry as (term & dv & _ & _ & ->).
    rewrite map_get_map_set. destruct (decide (term = k)); eauto.
Qed.

(** An entry present before the loop and not overwritten by it stays
    where it is, and the loop does what it does without it. *)
Lemma gen_entries_extra entries dm dm' t x :
  gen_entries rec acm tcm entries dm = Ok dm' ->
  map_get t dm' = None ->
  gen_entries rec acm tcm entries ((t, x) :: dm) = Ok ((t, x) :: dm').
Proof.
  revert dm. induction entries as [|[k0 v0] rest IH]; intros dm; simpl.
  - intros [= ->] _. reflexivity.
  - intros Hok Hnone. apply rbind_ok in Hok as (dm1 & Hentry & Hrest).
    apply gen_entry_ok in Hentry as (term & dv & Hterm & Hdv & ->).
    rewrite (gen_entry_of_parts _ _ _ term dv) by assumption. simpl.
    destruct (decide (t = term)) as [->|Hne].
    + pose proof (gen_entries_keeps _ _ _ term Hrest) as Hkeep.
      rewrite map_get_map_set, decide_True in Hkeep by reflexivity.
      destruct (Hkeep (mk_is_Some _ _ eq_refl)) as [y Hy]. congruence.
    + apply IH; assumption.
Qed.

(** Where the entries of the loop's result come from. *)
Lemma gen_entries_origin entries dm dm' t v :
  gen_entries rec acm tcm entries dm = Ok dm' ->
  In (t, v) dm' ->
  In (t, v) dm \/
  exists k rv, In (k, rv) entries /\ term_of tcm k = Some t /\
               gen_value rec acm tcm k rv = Ok v.
Proof.
  revert dm. induction entries as [|[k0 v0] rest IH]; intros dm; simpl.
  - intros [= ->]. auto.
  - intros Hok Hin. apply rbind_ok in Hok as (dm1 & Hentry & Hrest).
    apply gen_entry_ok in Hentry as (term & dv & Hterm & Hdv & ->).
    destruct (IH _ Hrest Hin) as [Hin1|(k & rv & Hk & Ht & Hv)].
    + apply in_map_set in Hin1 as [[= -> ->]|Hin1]; [|auto].
      right. exists k0, v0. auto.
    + right. exists k, rv. auto.
Qed.

Lemma gen_value_Map k v m :
  gen_value rec acm tcm k v = Ok (VMap m) ->
  exists raw, v = VMap raw /\ rec (VMap raw) = Ok m.
Proof.
  unfold gen_value, load_codec. destruct v; intros Hok;
    try (destruct tcm; [apply rbind_ok in Hok as (? & _ & Hok);
                        apply rbind_ok in Hok as (? & _ & Hok)|];
         discriminate).
  - apply rmap_ok in Hok as (? & _ & ?). discriminate.
  - apply rmap_ok in Hok as (m' & Hrec & [= ->]). eauto.
Qed.
End Loop.

Lemma codec_entry_values atm tcm dm t v :
  codec_entry atm tcm = Ok dm -> In (t, v) dm -> exists instance, v = VCodec instance.
Proof.
  unfold codec_entry. destruct atm as [a|], tcm as [c|]; try (intros [= <-] []).
  destruct (bool_decide (0 < size a)%nat); [|intros [= <-] []].
  intros Hok. apply rbind_ok in Hok as (instance & _ & Hok).
  apply rbind_ok in Hok as (entry & _ & [= <-]).
  simpl. intros [[= _ <-]|[]]. eauto.
Qed.

Lemma codec_entry_present atm t instance entry :
  (0 < size atm)%nat -> codecMap_set atm t = Ok instance ->
  t !! KStr "@codec" = Some entry ->
  codec_entry (Some atm) (Some t) = Ok [(tc_value entry, VCodec instance)].
Proof.
  intros Hsize Hset Hentry. unfold codec_entry, tcm_get.
  rewrite bool_decide_eq_true_2 by exact Hsize.
  rewrite Hset, Hentry. reflexivity.
Qed.

(** The builder is a loop over the entries of what it is given. *)
Lemma generateDecodingMap_loop cborMap acm atm tcm dm :
  _generateDecodingMap cborMap acm atm tcm = Ok dm ->
  exists rec entries dm0,
    codec_entry atm tcm = Ok dm0 /\
    gen_entries rec acm tcm entries dm0 = Ok dm /\
    forall atm' dm1,
      codec_entry atm' tcm = Ok dm1 ->
      _generateDecodingMap cborMap acm atm' tcm =
      gen_entries rec acm tcm entries dm1.
Proof.
  destruct cborMap; simpl; intros Hok;
    apply rbind_ok in Hok as (dm0 & Hcodec & Hok); try discriminate.
  - eexists _, (index_entries 0 (List.map VNum bs)), dm0.
    rewrite <- gen_indexed_entries. repeat split; [exact Hcodec|exact Hok|].
    intros atm' dm1 ->. simpl. apply gen_indexed_entries.
  - eexists _, (index_entries 0 elements), dm0.
    rewrite <- gen_indexed_entries. repeat split; [exact Hcodec|exact Hok|].
    intros atm' dm1 ->. simpl. apply gen_indexed_entries.
  - eexists _, entries, dm0. repeat split; [exact Hcodec|exact Hok|].
    intros atm' dm1 ->. reflexivity.
Qed.
End SynthesisFacts.

Section NestingFacts.
Context {H : Host}.

Lemma built_child entries acm atm tcm dm k m :
  _generateDecodingMap (VMap entries) acm atm tcm = Ok dm ->
  In (k, VMap m) dm ->
  exists k' raw,
    In (k', VMap raw) entries /\
    _generateDecodingMap (VMap raw) acm None tcm = Ok m.
Proof.
  rewrite generateDecodingMap_Map. intros Hok Hin.
  apply rbind_ok in Hok as (dm0 & Hcodec & Hloop).
  destruct (gen_entries_origin _ _ _ _ _ _ _ _ Hloop Hin)
    as [Hin0|(k' & rv & Hk' & _ & Hv)].
  - destruct (codec_entry_values _ _ _ _ _ Hcodec Hin0). discriminate.
  - apply gen_value_Map in Hv as (raw & -> & Hraw). eauto.
Qed.

Lemma built_without_appTermMap_origin entries acm tcm dm t v :
  _generateDecodingMap (VMap entries) acm None tcm = Ok dm ->
  In (t, v) dm ->
  exists k rv, In (k, rv) entries /\ term_of tcm k = Some t.
Proof.
  rewrite generateDecodingMap_Map, codec_entry_absent. simpl. intros Hloop Hin.
  destruct (gen_entries_origin _ _ _ _ _ _ _ _ Hloop Hin)
    as [[]|(k & rv & Hk & Ht & _)].
  eauto.
Qed.
End NestingFacts.

(** C9. Every decoding map nested in the builder's result, at any depth, is
    what the builder returns for a map nested in the binary map when called
    without an application term map; each of its entries stems from an entry
    of that binary map, filed under the term of its key, so none of them is
    the entry the builder synthesizes from the application term map. *)
Theorem nested_maps_built_without_appTermMap {H : Host}
    (entries : list (key * val CodecInstance)) (acm : option AppContextMap)
    (atm : option (gmap string Codec))
    (tcm : option (gmap key (tcm_entry Codec)))
    (dm inner : list (key * val CodecInstance)) :
  _generateDecodingMap (VMap entries) acm atm tcm = Ok dm ->
  nested_in dm inner ->
  exists raw,
    visited (VMap entries) (VMap raw) /\
    _generateDecodingMap (VMap raw) acm None tcm = Ok inner /\
    forall t v, In (t, v) inner ->
                exists k rv, In (k, rv) raw /\ term_of tcm k = Some t.
Proof.
  intros Hok Hnested. revert entries atm Hok.
  induction Hnested as [dm k m Hin|dm k m inner Hin Hnested IH];
    intros entries atm Hok;
    destruct (built_child _ _ _ _ _ _ _ Hok Hin) as (k' & raw & Hraw & Hm).
  - exists raw. split; [|split].
    + eapply visited_nested; [exact Hraw | apply visited_here].
    + exact Hm.
    + intros t v. apply built_without_appTermMap_origin with (acm := acm). exact Hm.
  - destruct (IH raw None Hm) as (raw' & Hvis & Hinner & Horigin).
    exists raw'. split; [|split]; auto.
    eapply visited_nested; eauto.
Qed.

Lemma nested_maps_built_without_appTermMap_witness :
  exists raw,
    visited (H := Sample.host)
      (VMap [(KNum 2, VMap [(KNum 1, VStr "Bob")])]) (VMap raw) /\
    _generateDecodingMap (H := Sample.host) (VMap raw) None None
      (Some Sample.termCodecMap) =
    Ok [(KStr "name", VCodec (Sample.Loaded Sample.SimpleTypeCodec (VStr "Bob")))] /\
    forall t v,
      In (t, v)
        [(KStr "name", VCodec (Sample.Loaded Sample.SimpleTypeCodec (VStr "Bob")))] ->
      exists k rv, In (k, rv) raw /\
                   term_of (H := Sample.host) (Some Sample.termCodecMap) k = Some t.
Proof.
  refine (nested_maps_built_without_appTermMap (H := Sample.host)
            [(KNum 2, VMap [(KNum 1, VStr "Bob")])] None
            (Some Sample.appTermMap) (Some Sample.termCodecMap)
            [(KStr "@codec", VCodec (Sample.LoadedTerms Sample.appTermMap));
             (KStr "knows",
              VMap [(KStr "name",
                     VCodec (Sample.Loaded Sample.SimpleTypeCodec (VStr "Bob")))])]
            _ eq_refl _).
  apply (nested_child _ (KStr "knows")). simpl. right. left. reflexivity.
Defined.

Section DispatchFacts.
Context {H : Host}.

Abbreviation value := (val CodecInstance).

Lemma bind_ok_ret {E : Type -> Type} {A B : Type} (a : A)
    (k : A -> itree E (result B)) :
  bind_ok (Ret (Ok a)) k ≅ k a.
Proof. unfold bind_ok. rewrite bind_ret_l. reflexivity. Qed.

Lemma bind_ok_err {E : Type -> Type} {A B : Type} (e : error)
    (k : A -> itree E (result B)) :
  bind_ok (Ret (Err e)) k ≅ Ret (Err e).
Proof. unfold bind_ok. rewrite bind_ret_l. reflexivity. Qed.

Lemma bind_ok_cong {E : Type -> Type} {A B : Type} (t t' : itree E (result A))
    (k : A -> itree E (result B)) :
  t ≅ t' -> bind_ok t k ≅ bind_ok t' k.
Proof.
  intros Ht. unfold bind_ok. apply eqit_bind; [exact Ht | intros r; reflexivity].
Qed.

(** Past the decoder and the read of [.tag]. *)
Lemma fromCborld_dispatch bytes acm atm loader diagnose (cborMap tag : value) :
  cbor_decode bytes = Ok cborMap ->
  get_prop cborMap "tag" = Ok tag ->
  fromCborld bytes acm atm loader diagnose ≅
  bind_ok
    (if is_number tag 0x0500 then Ret (get_prop cborMap "value")
     else if is_number tag 0x0501 then
       bind_ok (Ret (get_prop cborMap "value")) (fun payload =>
       decompress payload acm atm loader)
     else Ret (Err not_cborld))
    (fun jsonldDocument =>
       ITree.bind (diagnostics diagnose cborMap jsonldDocument) (fun _ =>
       Ret (Ok jsonldDocument))).
Proof.
  intros Hdecode Htag. unfold fromCborld.
  rewrite Hdecode, bind_ok_ret, Htag, bind_ok_ret. reflexivity.
Qed.

Lemma fromCborld_uncompressed bytes acm atm loader diagnose (cborMap wrapped : value) :
  cbor_decode bytes = Ok cborMap ->
  get_prop cborMap "tag" = Ok (VNum 0x0500) ->
  get_prop cborMap "value" = Ok wrapped ->
  fromCborld bytes acm atm loader diagnose ≅
  ITree.bind (diagnostics diagnose cborMap wrapped) (fun _ => Ret (Ok wrapped)).
Proof.
  intros Hdecode Htag Hvalue.
  rewrite (fromCborld_dispatch _ _ _ _ _ _ _ Hdecode Htag). simpl.
  rewrite Hvalue, bind_ok_ret. reflexivity.
Qed.

Lemma fromCborld_compressed bytes acm atm loader diagnose (cborMap payload : value) :
  cbor_decode bytes = Ok cborMap ->
  get_prop cborMap "tag" = Ok (VNum 0x0501) ->
  get_prop cborMap "value" = Ok payload ->
  fromCborld bytes acm atm loader diagnose ≅
  bind_ok (decompress payload acm atm loader) (fun jsonldDocument =>
  ITree.bind (diagnostics diagnose cborMap jsonldDocument) (fun _ =>
  Ret (Ok jsonldDocument))).
Proof.
  intros Hdecode Htag Hvalue.
  rewrite (fromCborld_dispatch _ _ _ _ _ _ _ Hdecode Htag). simpl.
  rewrite Hvalue. apply bind_ok_cong.
  apply (bind_ok_ret payload (fun p => decompress p acm atm loader)).
Qed.

Lemma value_readable (cborMap tag : value) :
  get_prop cborMap "tag" = Ok tag ->
  exists wrapped, get_prop cborMap "value" = Ok wrapped.
Proof. destruct cborMap; simpl; try discriminate; eauto. Qed.

Lemma translate_trigger_inr {R : Type} (e : diagnoseE R) :
  translate (@inr1 resolverE diagnoseE) (ITree.trigger e) ≅
  ITree.trigger (inr1 e).
Proof.
  unfold ITree.trigger. rewrite translate_vis.
  apply eqit_Vis. intros r. apply translate_ret.
Qed.

Lemma translate_diagnose_calls diagnose (cborMap doc : value) :
  translate (@inr1 resolverE diagnoseE) (diagnose_calls diagnose cborMap doc) ≅
  diagnostics diagnose cborMap doc.
Proof.
  unfold diagnose_calls, diagnostics, report. destruct diagnose.
  - repeat (rewrite translate_bind; apply eqit_bind;
            [apply translate_trigger_inr | intros []]).
    apply translate_trigger_inr.
  - apply translate_ret.
Qed.
End DispatchFacts.

(** C5. When the decoded value carries the tag 0x0500, [fromCborld] resolves
    to the wrapped value, unchanged: at once when no [diagnose] callback is
    given, and otherwise after the four calls of the callback. *)
Theorem uncompressed_returns_wrapped_value {H : Host} (bytes : list Z)
    (acm : option AppContextMap) (atm : option (gmap string Codec))
    (loader : DocumentLoader) (cborMap wrapped : val CodecInstance) :
  cbor_decode bytes = Ok cborMap ->
  get_prop cborMap "tag" = Ok (VNum 0x0500) ->
  get_prop cborMap "value" = Ok wrapped ->
  fromCborld bytes acm atm loader false ≅ Ret (Ok wrapped) /\
  fromCborld bytes acm atm loader true ≅
  ITree.bind (report (VStr "Diagnostic CBOR Object:")) (fun _ =>
  ITree.bind (report (VStr (inspect_deep cborMap))) (fun _ =>
  ITree.bind (report (VStr "Diagnostic JSON-LD Object:")) (fun _ =>
  ITree.bind (report wrapped) (fun _ =>
  Ret (Ok wrapped))))).
Proof.
  intros Hdecode Htag Hvalue. split.
  - rewrite (fromCborld_uncompressed _ _ _ _ _ _ _ Hdecode Htag Hvalue).
    simpl. rewrite bind_ret_l. reflexivity.
  - rewrite (fromCborld_uncompressed _ _ _ _ _ _ _ Hdecode Htag Hvalue).
    simpl.
    do 2 (rewrite bind_bind; apply eqit_bind; [reflexivity | intros []]).
    rewrite bind_bind. reflexivity.
Qed.

Lemma uncompressed_returns_wrapped_value_witness :
  fromCborld (H := Sample.host) [0xd9; 0x05; 0x00; 0xa1; 0x61; 0x61; 0x01]
    None None tt false ≅
  Ret (Ok (VObj {[ "a" := VNum 1 ]})).
Proof.
  exact (proj1 (uncompressed_returns_wrapped_value (H := Sample.host)
                  [0xd9; 0x05; 0x00; 0xa1; 0x61; 0x61; 0x01] None None tt
                  (VTagged 0x0500 (VObj {[ "a" := VNum 1 ]}))
                  (VObj {[ "a" := VNum 1 ]}) eq_refl eq_refl eq_refl)).
Defined.

(** C6. When the value read from [.tag] is neither 0x0500 nor 0x0501,
    [fromCborld] rejects with [ERR_NOT_CBORLD], whose message names the two
    headers, and does nothing else: the resolver is not called, nothing is
    built or realized, the [diagnose] callback is not called. *)
Theorem unknown_tag_rejected {H : Host} (bytes : list Z)
    (acm : option AppContextMap) (atm : option (gmap string Codec))
    (loader : DocumentLoader) (diagnose : bool) (cborMap tag : val CodecInstance) :
  cbor_decode bytes = Ok cborMap ->
  get_prop cborMap "tag" = Ok tag ->
  is_number tag 0x0500 = false ->
  is_number tag 0x0501 = false ->
  fromCborld bytes acm atm loader diagnose ≅
  Ret (Err (CborldError "ERR_NOT_CBORLD"
              "Input is not valid CBOR-LD; missing CBOR-LD header (0x0500 or 0x501).")).
Proof.
  intros Hdecode Htag H0 H1.
  rewrite (fromCborld_dispatch _ _ _ _ _ _ _ Hdecode Htag), H0, H1.
  apply bind_ok_err.
Qed.

Lemma unknown_tag_rejected_witness :
  fromCborld (H := Sample.host) [0xd9; 0x05; 0x02; 0xa0]
    None (Some Sample.appTermMap) tt true ≅
  Ret (Err (CborldError "ERR_NOT_CBORLD"
              "Input is not valid CBOR-LD; missing CBOR-LD header (0x0500 or 0x501).")).
Proof.
  exact (unknown_tag_rejected (H := Sample.host) [0xd9; 0x05; 0x02; 0xa0]
           None (Some Sample.appTermMap) tt true
           (VTagged 0x0502 (VObj ∅)) (VNum 0x0502)
           eq_refl eq_refl eq_refl eq_refl).
Defined.

(** C10. When the decoded value carries the tag 0x0500, a run of
    [fromCborld] is a computation over the diagnostic sink alone: it makes no
    call to the resolver, the only receiver of the document loader; and it
    is one and the same computation, hence one and the same document,
    whatever [appContextMap], [appTermMap] and the loader are. *)
Theorem uncompressed_never_resolves {H : Host} (bytes : list Z) (diagnose : bool)
    (cborMap : val CodecInstance) :
  cbor_decode bytes = Ok cborMap ->
  get_prop cborMap "tag" = Ok (VNum 0x0500) ->
  exists t : itree diagnoseE (result (val CodecInstance)),
    forall acm atm loader,
      fromCborld bytes acm atm loader diagnose ≅
      translate (@inr1 resolverE diagnoseE) t.
Proof.
  intros Hdecode Htag.
  destruct (value_readable _ _ Htag) as [wrapped Hvalue].
  exists (ITree.bind (diagnose_calls diagnose cborMap wrapped)
            (fun _ => Ret (Ok wrapped))).
  intros acm atm loader.
  rewrite (fromCborld_uncompressed _ _ _ _ _ _ _ Hdecode Htag Hvalue).
  rewrite translate_bind. apply eqit_bind.
  - symmetry. apply translate_diagnose_calls.
  - intros []. symmetry. apply translate_ret.
Qed.

Lemma uncompressed_never_resolves_witness :
  exists t : itree (diagnoseE (H := Sample.host)) (result (val Sample.instance)),
    forall acm atm loader,
      fromCborld (H := Sample.host) [0xd9; 0x05; 0x00; 0xa1; 0x61; 0x61; 0x01]
        acm atm loader true ≅
      translate (@inr1 resolverE diagnoseE) t.
Proof.
  exact (uncompressed_never_resolves (H := Sample.host)
           [0xd9; 0x05; 0x00; 0xa1; 0x61; 0x61; 0x01] true
           (VTagged 0x0500 (VObj {[ "a" := VNum 1 ]})) eq_refl eq_refl).
Defined.

(** * Further properties of the realizer *)

Section RealizerMore.
Context {H : Host}.

Abbreviation value := (val CodecInstance).
Abbreviation js_map := (list (key * val CodecInstance)).
Abbreviation js_object := (gmap string (val CodecInstance)).

Lemma obj_set_twice name (x y : value) (doc : js_object) :
  obj_set name x (obj_set name y doc) = obj_set name x doc.
Proof.
  unfold obj_set. destruct (decide (name = "__proto__")); [reflexivity|].
  apply insert_insert_eq.
Qed.

Lemma lookup_obj_set name name' (x : value) (doc : js_object) :
  obj_set name x doc !! name' =
  if decide (name = name' /\ name <> "__proto__") then Some x else doc !! name'.
Proof.
  unfold obj_set. destruct (decide (name = "__proto__")) as [->|Hne].
  - rewrite decide_False; [reflexivity | intros [_ Hp]; congruence].
  - destruct (decide (name = name')) as [->|Hne'].
    + rewrite lookup_insert_eq, decide_True; auto.
    + rewrite lookup_insert_ne by exact Hne'.
      rewrite decide_False; [reflexivity | intros [Heq _]; congruence].
Qed.

Lemma realize_elements_overwritten rec k elements rest (doc : js_object) :
  exists doc',
    realize_elements rec k (VArr elements) rest doc = Ok doc' /\
    forall x, obj_set (key_string k) x doc' = obj_set (key_string k) x doc.
Proof.
  revert doc. induction rest as [|element rest IH]; intros doc; simpl.
  - eauto.
  - destruct (IH (obj_set (key_string k) element doc)) as (doc' & -> & Hset).
    exists doc'. split; [reflexivity|].
    intros x. rewrite Hset. apply obj_set_twice.
Qed.

(** What lines 135-146 and 156 amount to. *)
Lemma realize_entry_array_exact rec k elements (doc : js_object) :
  realize_entry rec k (VArr elements) doc =
  Ok (obj_set (key_string k) (VArr []) doc).
Proof.
  simpl.
  destruct (realize_elements_overwritten rec k elements elements doc)
    as (doc' & -> & Hset).
  simpl. rewrite Hset. reflexivity.
Qed.

(** An entry that is no map is completed exactly when it is an array or a
    codec instance whose [decodeCBOR] returns. *)
Lemma realize_entry_ok rec k v (doc doc' : js_object) :
  is_Map v = false ->
  realize_entry rec k v doc = Ok doc' ->
  exists out, realized v out /\ doc' = obj_set (key_string k) out doc.
Proof.
  intros Hmap Hok. destruct v; try discriminate;
    try (simpl in Hok; discriminate).
  - rewrite realize_entry_array_exact in Hok. injection Hok as <-.
    exists (VArr []). split; [left; auto | reflexivity].
  - simpl in Hok. destruct (truthy (default VUndef (props !! "decodeCBOR")));
      discriminate.
  - simpl in Hok. destruct (decodeCBOR instance) as [out|e] eqn:Hdec;
      [|discriminate].
    injection Hok as <-. exists out. split; [right; eauto | reflexivity].
Qed.

Lemma realize_entry_realized rec k v out (doc : js_object) :
  realized v out ->
  realize_entry rec k v doc = Ok (obj_set (key_string k) out doc).
Proof.
  intros [[Harr ->]|(instance & -> & Hdec)].
  - destruct v; try discriminate. apply realize_entry_array_exact.
  - simpl. rewrite Hdec. reflexivity.
Qed.

Lemma realized_not_map v out : realized v out -> is_Map v = false.
Proof.
  intros [[Harr _]|(instance & -> & _)]; [|reflexivity].
  destruct v; try discriminate; reflexivity.
Qed.

(** Where the bindings of the document come from. *)
Lemma realize_entries_origin rec (entries : js_map) (doc doc' : js_object) :
  (forall k v, In (k, v) entries -> is_Map v = false) ->
  realize_entries rec entries doc = Ok doc' ->
  forall name out,
    doc' !! name = Some out ->
    doc !! name = Some out \/
    exists k v, In (k, v) entries /\ key_string k = name /\ realized v out.
Proof.
  revert doc. induction entries as [|[k v] rest IH]; intros doc Hno; simpl.
  - intros [= <-]. auto.
  - intros Hok name out Hlook.
    apply rbind_ok in Hok as (doc1 & Hentry & Hrest).
    apply realize_entry_ok in Hentry as (o & Hreal & ->);
      [|apply (Hno k); left; reflexivity].
    destruct (IH _ (fun k' v' Hin => Hno k' v' (or_intror Hin)) Hrest name out Hlook)
      as [Hdoc1|(k' & v' & Hin & Hname & Hr)].
    + rewrite lookup_obj_set in Hdoc1.
      destruct (decide (key_string k = name /\ key_string k <> "__proto__"))
        as [[Heq _]|_]; [|auto].
      injection Hdoc1 as <-. right. exists k, v. auto.
    + right. exists k', v'. auto.
Qed.

(** Entries under distinct property names are all found in the document. *)
Lemma realize_entries_complete rec (entries : js_map) (doc : js_object) :
  (forall k v, In (k, v) entries -> exists out, realized v out) ->
  List.NoDup (List.map (fun kv => key_string (fst kv)) entries) ->
  exists doc',
    realize_entries rec entries doc = Ok doc' /\
    (forall name, ~ In name (List.map (fun kv => key_string (fst kv)) entries) ->
                  doc' !! name = doc !! name) /\
    (forall k v, In (k, v) entries -> key_string k <> "__proto__" ->
                 exists out, realized v out /\ doc' !! key_string k = Some out).
Proof.
  revert doc. induction entries as [|[k v] rest IH]; intros doc Hall Hnodup; simpl.
  - exists doc. repeat split; auto. intros k v [].
  - simpl in Hnodup. apply NoDup_cons_iff in Hnodup as [Hfresh Hnodup].
    destruct (Hall k v (or_introl eq_refl)) as [out Hreal].
    rewrite (realize_entry_realized rec k v out doc Hreal). simpl.
    destruct (IH (obj_set (key_string k) out doc)
                (fun k' v' Hin => Hall k' v' (or_intror Hin)) Hnodup)
      as (doc' & Hok & Hother & Hfound).
    exists doc'. split; [exact Hok | split].
    + intros name Hname. rewrite Hother by tauto.
      rewrite lookup_obj_set, decide_False; [reflexivity|].
      intros [Heq _]. apply Hname. left. exact Heq.
    + intros k' v' [[= -> ->]|Hin] Hproto.
      * exists out. split; [exact Hreal|].
        rewrite Hother by exact Hfresh.
        rewrite lookup_obj_set, decide_True; auto.
      * apply Hfound; assumption.
Qed.

Lemma decodeMap_flat depth (decodingMap : js_map) rec :
  (forall k v, In (k, v) decodingMap -> is_Map v = false) ->
  _decodeMap (S depth) decodingMap = realize_entries rec decodingMap ∅.
Proof. intros Hno. simpl. apply realize_entries_rec_irrelevant, Hno. Qed.
End RealizerMore.

(** X1. A decoding map with a map-valued entry is never realized, whatever
    the room on the call stack; when the entries before the first such entry
    are realized without error, the outcome is the exhaustion of the stack,
    at every depth. *)
Theorem map_entry_exhausts_stack {H : Host}
    (before after : list (key * val CodecInstance)) (k : key)
    (m : list (key * val CodecInstance)) :
  (forall depth,
      is_ok (_decodeMap depth (before ++ (k, VMap m) :: after)) = false) /\
  (forall depth0 doc,
      _decodeMap depth0 before = Ok doc ->
      forall depth,
        _decodeMap depth (before ++ (k, VMap m) :: after) =
        Err (RangeError "Maximum call stack size exceeded")).
Proof.
  split.
  - intros depth. apply (decodeMap_nested_never_ok depth _ k m).
    apply in_or_app. right. left. reflexivity.
  - intros depth0 doc Hbefore.
    pose proof (decodeMap_ok_no_map _ _ _ Hbefore) as Hno.
    destruct depth0 as [|depth0]; [discriminate|].
    rewrite (decodeMap_flat depth0 before (fun _ => Err stack_overflow) Hno)
      in Hbefore.
    induction depth as [|depth IH]; [reflexivity|].
    simpl. rewrite realize_entries_app.
    rewrite (realize_entries_rec_irrelevant _ (fun _ => Err stack_overflow))
      by exact Hno.
    rewrite Hbefore. simpl. rewrite IH. reflexivity.
Qed.

Lemma map_entry_exhausts_stack_witness :
  _decodeMap (H := Sample.host) 64
    [(KStr "x", VCodec (Sample.Loaded Sample.SimpleTypeCodec (VNum 1)));
     (KStr "a", VMap []); (KStr "y", VArr [])] =
  Err (RangeError "Maximum call stack size exceeded").
Proof.
  exact (proj2 (map_entry_exhausts_stack (H := Sample.host)
                  [(KStr "x", VCodec (Sample.Loaded Sample.SimpleTypeCodec (VNum 1)))]
                  [(KStr "y", VArr [])] (KStr "a") [])
           1%nat _ eq_refl 64%nat).
Defined.

(** X2. The document the realizer returns does not depend on the room on
    the call stack: a document returned at one depth is returned at every
    depth that allows the first call. *)
Theorem realization_independent_of_depth {H : Host} (depth depth' : nat)
    (decodingMap : list (key * val CodecInstance))
    (doc : gmap string (val CodecInstance)) :
  _decodeMap depth decodingMap = Ok doc ->
  _decodeMap (S depth') decodingMap = Ok doc.
Proof.
  intros Hok. pose proof (decodeMap_ok_no_map _ _ _ Hok) as Hno.
  destruct depth as [|depth]; [discriminate|].
  rewrite (decodeMap_flat depth decodingMap (fun _ => Err stack_overflow) Hno) in Hok.
  rewrite (decodeMap_flat depth' decodingMap (fun _ => Err stack_overflow) Hno).
  exact Hok.
Qed.

Lemma realization_independent_of_depth_witness :
  _decodeMap (H := Sample.host) 7
    [(KStr "name", VCodec (Sample.Loaded Sample.SimpleTypeCodec (VStr "Alice")))] =
  Ok {[ "name" := VStr "Alice" ]}.
Proof.
  exact (realization_independent_of_depth (H := Sample.host) 1 6
           [(KStr "name", VCodec (Sample.Loaded Sample.SimpleTypeCodec (VStr "Alice")))]
           _ eq_refl).
Defined.

(** X3. Every binding of a document the realizer returns comes from an entry
    of the decoding map, under the string of its term, and its value is the
    empty array (for an array entry) or the result of [decodeCBOR] (for a
    codec instance): neither codec instances nor array elements reach the
    document. *)
Theorem document_bindings_origin {H : Host} (depth : nat)
    (decodingMap : list (key * val CodecInstance))
    (doc : gmap string (val CodecInstance)) (name : string)
    (out : val CodecInstance) :
  _decodeMap depth decodingMap = Ok doc ->
  doc !! name = Some out ->
  exists k v, In (k, v) decodingMap /\ key_string k = name /\ realized v out.
Proof.
  intros Hok Hlook. pose proof (decodeMap_ok_no_map _ _ _ Hok) as Hno.
  destruct depth as [|depth]; [discriminate|]. simpl in Hok.
  destruct (realize_entries_origin _ _ _ _ Hno Hok name out Hlook) as [Hempty|Hfrom].
  - rewrite lookup_empty in Hempty. discriminate.
  - exact Hfrom.
Qed.

Lemma document_bindings_origin_witness :
  exists k v,
    In (k, v) [(KNum 1, VArr [VStr "x"]);
               (KStr "name", VCodec (Sample.Loaded Sample.UrlCodec (VStr "Alice")))] /\
    key_string k = "1" /\ realized (H := Sample.host) v (VArr []).
Proof.
  refine (document_bindings_origin (H := Sample.host) 1
            [(KNum 1, VArr [VStr "x"]);
             (KStr "name", VCodec (Sample.Loaded Sample.UrlCodec (VStr "Alice")))]
            {[ "1" := VArr []; "name" := VStr "Alice" ]} "1" (VArr []) _ _);
    vm_compute; reflexivity.
Defined.

(** X4. An error thrown by [decodeCBOR] is the outcome of the realization,
    unchanged, when the pairs before the codec instance are realized
    without error. *)
Theorem decodeCBOR_error_propagates {H : Host} (depth : nat)
    (before after : list (key * val CodecInstance)) (k : key)
    (instance : CodecInstance) (e : error)
    (doc : gmap string (val CodecInstance)) :
  _decodeMap (S depth) before = Ok doc ->
  decodeCBOR instance = Err e ->
  _decodeMap (S depth) (before ++ (k, VCodec instance) :: after) = Err e.
Proof.
  intros Hbefore Hdec.
  pose proof (decodeMap_ok_no_map _ _ _ Hbefore) as Hno.
  simpl in Hbefore |- *. rewrite realize_entries_app.
  rewrite (realize_entries_rec_irrelevant _ (fun _ => _decodeMap depth before))
    by exact Hno.
  rewrite Hbefore. simpl. rewrite Hdec. reflexivity.
Qed.

Lemma decodeCBOR_error_propagates_witness :
  _decodeMap (H := Strict.host) 1
    [(KStr "name", VCodec (Sample.Loaded Sample.SimpleTypeCodec (VStr "Alice")));
     (KStr "born", VCodec (Sample.Loaded Sample.XsdDateTimeCodec (VNum 1990)));
     (KStr "x", VNull)] =
  Err (HostError "Invalid date-time").
Proof.
  exact (decodeCBOR_error_propagates (H := Strict.host) 0
           [(KStr "name", VCodec (Sample.Loaded Sample.SimpleTypeCodec (VStr "Alice")))]
           [(KStr "x", VNull)] (KStr "born")
           (Sample.Loaded Sample.XsdDateTimeCodec (VNum 1990))
           (HostError "Invalid date-time") _ eq_refl eq_refl).
Defined.

(** X5. A [null] or [undefined] value makes the realizer throw a
    [TypeError], not a [CborldError], when it reaches the pair. *)
Theorem nullish_value_throws_TypeError {H : Host} (depth : nat)
    (before after : list (key * val CodecInstance)) (k : key)
    (v : val CodecInstance) (doc : gmap string (val CodecInstance)) :
  _decodeMap (S depth) before = Ok doc ->
  v = VNull \/ v = VUndef ->
  exists what,
    _decodeMap (S depth) (before ++ (k, v) :: after) = Err (TypeError what).
Proof.
  intros Hbefore Hv.
  pose proof (decodeMap_ok_no_map _ _ _ Hbefore) as Hno.
  simpl in Hbefore |- *. rewrite realize_entries_app.
  rewrite (realize_entries_rec_irrelevant _ (fun _ => _decodeMap depth before))
    by exact Hno.
  rewrite Hbefore. destruct Hv as [-> | ->]; simpl; eauto.
Qed.

Lemma nullish_value_throws_TypeError_witness :
  exists what,
    _decodeMap (H := Sample.host) 1 [(KStr "a", VArr []); (KStr "b", VUndef)] =
    Err (TypeError what).
Proof.
  exact (nullish_value_throws_TypeError (H := Sample.host) 0
           [(KStr "a", VArr [])] [] (KStr "b") VUndef _ eq_refl
           (or_intror eq_refl)).
Defined.

(** X6. When every value of the decoding map is an array or a codec
    instance whose [decodeCBOR] returns, and the terms have distinct
    strings, the realizer returns a document at every depth that allows the
    first call, and the document binds each term (other than [__proto__])
    to the empty array or to the result of [decodeCBOR]. *)
Theorem flat_map_realized {H : Host} (depth : nat)
    (decodingMap : list (key * val CodecInstance)) :
  (forall k v, In (k, v) decodingMap -> exists out, realized v out) ->
  List.NoDup (List.map (fun kv => key_string (fst kv)) decodingMap) ->
  exists doc,
    _decodeMap (S depth) decodingMap = Ok doc /\
    forall k v, In (k, v) decodingMap -> key_string k <> "__proto__" ->
                exists out, realized v out /\ doc !! key_string k = Some out.
Proof.
  intros Hall Hnodup.
  assert (forall k v, In (k, v) decodingMap -> is_Map v = false) as Hno.
  { intros k v Hin. destruct (Hall k v Hin) as [out Hreal].
    exact (realized_not_map v out Hreal). }
  destruct (realize_entries_complete (fun _ => Err stack_overflow) decodingMap ∅
              Hall Hnodup) as (doc & Hok & _ & Hfound).
  exists doc. split; [|exact Hfound].
  rewrite (decodeMap_flat depth decodingMap (fun _ => Err stack_overflow) Hno).
  exact Hok.
Qed.

Lemma flat_map_realized_witness :
  exists doc,
    _decodeMap (H := Sample.host) 1
      [(KStr "name", VCodec (Sample.Loaded Sample.SimpleTypeCodec (VStr "Alice")));
       (KStr "tags", VArr [VStr "x"])] = Ok doc /\
    forall k v,
      In (k, v)
        [(KStr "name", VCodec (Sample.Loaded Sample.SimpleTypeCodec (VStr "Alice")));
         (KStr "tags", VArr [VStr "x"])] ->
      key_string k <> "__proto__" ->
      exists out, realized (H := Sample.host) v out /\ doc !! key_string k = Some out.
Proof.
  apply (flat_map_realized (H := Sample.host) 0).
  - intros k v [[= <- <-]|[[= <- <-]|[]]].
    + exists (VStr "Alice"). right. eexists. split; reflexivity.
    + exists (VArr []). left. split; reflexivity.
  - simpl. repeat constructor; simpl; intuition discriminate.
Defined.

(** * Further properties of the builder *)

Section MapMore.
Context {I : Type}.

Lemma in_keys_map_set (k k' : key) (v : val I) (m : list (key * val I)) :
  In k' (List.map fst (map_set k v m)) <-> k' = k \/ In k' (List.map fst m).
Proof.
  induction m as [|[k0 v0] m IH]; simpl.
  - intuition.
  - destruct (decide (k0 = k)) as [->|Hne]; simpl.
    + intuition.
    + rewrite IH. intuition.
Qed.

Lemma map_set_nodup (k : key) (v : val I) (m : list (key * val I)) :
  List.NoDup (List.map fst m) -> List.NoDup (List.map fst (map_set k v m)).
Proof.
  induction m as [|[k0 v0] m IH]; simpl; intros Hnd.
  - repeat constructor. intros [].
  - apply NoDup_cons_iff in Hnd as [Hfresh Hnd].
    destruct (decide (k0 = k)) as [->|Hne]; simpl.
    + apply NoDup_cons_iff. auto.
    + apply NoDup_cons_iff. split; [|auto].
      rewrite in_keys_map_set. intros [Heq|Hin]; auto.
Qed.

Lemma map_set_fresh (k : key) (v : val I) (m : list (key * val I)) :
  ~ In k (List.map fst m) -> map_set k v m = (m ++ [(k, v)])%list.
Proof.
  induction m as [|[k0 v0] m IH]; simpl; intros Hfresh.
  - reflexivity.
  - destruct (decide (k0 = k)) as [->|Hne]; [tauto|].
    rewrite IH by tauto. reflexivity.
Qed.

Lemma map_get_is_Some (k : key) (m : list (key * val I)) :
  is_Some (map_get k m) <-> In k (List.map fst m).
Proof.
  induction m as [|[k0 v0] m IH]; simpl.
  - split; [intros [x Hx]; discriminate | intros []].
  - destruct (decide (k0 = k)) as [->|Hne].
    + split; [auto | eauto].
    + rewrite IH. intuition.
Qed.
End MapMore.

Section BuilderMore.
Context {H : Host}.

Abbreviation value := (val CodecInstance).
Abbreviation js_map := (list (key * val CodecInstance)).
Abbreviation TermCodecMap := (gmap key (tcm_entry Codec)).
Abbreviation AppTermMap := (gmap string Codec).

Lemma mapM_ok {A B : Type} (f : A -> result B) (l : list A) (l' : list B) :
  mapM f l = Ok l' -> forall y, In y l' -> exists x, In x l /\ f x = Ok y.
Proof.
  revert l'. induction l as [|x l IH]; simpl; intros l'.
  - intros [= <-] y [].
  - intros Hok. apply rbind_ok in Hok as (y0 & Hy0 & Hok).
    apply rbind_ok in Hok as (ys & Hys & [= <-]).
    intros y [<-|Hin]; [eauto|].
    destruct (IH _ Hys y Hin) as (x' & Hx' & Hfx). eauto.
Qed.

Lemma mapM_fails {A B : Type} (f : A -> result B) (l : list A) (x : A) :
  In x l -> is_ok (f x) = false -> is_ok (mapM f l) = false.
Proof.
  induction l as [|y l IH]; simpl; [intros []|].
  intros [->|Hin] Hx.
  - destruct (f x); [discriminate | reflexivity].
  - destruct (f y); simpl; [|reflexivity].
    specialize (IH Hin Hx). destruct (mapM f l); [discriminate | reflexivity].
Qed.

Lemma mapM_id {A : Type} (f : A -> result A) (l : list A) :
  (forall x, In x l -> f x = Ok x) -> mapM f l = Ok l.
Proof.
  induction l as [|x l IH]; simpl; intros Hf; [reflexivity|].
  rewrite (Hf x) by auto. simpl. rewrite IH by auto. reflexivity.
Qed.

Lemma nested_call_plain_object acm tcm props :
  nested_call acm tcm (VObj props) = Err entries_not_a_function.
Proof. reflexivity. Qed.

Section Loop.
Variable rec : value -> result js_map.
Variable acm : option AppContextMap.
Variable tcm : option TermCodecMap.

Lemma gen_entries_nodup entries dm dm' :
  gen_entries rec acm tcm entries dm = Ok dm' ->
  List.NoDup (List.map fst dm) -> List.NoDup (List.map fst dm').
Proof.
  revert dm. induction entries as [|[k v] rest IH]; intros dm; simpl.
  - intros [= <-]. auto.
  - intros Hok Hnd. apply rbind_ok in Hok as (dm1 & Hentry & Hrest).
    apply gen_entry_ok in Hentry as (term & dv & _ & _ & ->).
    apply (IH _ Hrest). apply map_set_nodup, Hnd.
Qed.


(** An element of an array, when the nested call fails on plain objects. *)
Lemma gen_element_leaf t k element x :
  tcm = Some t ->
  (forall props, is_ok (rec (VObj props)) = false) ->
  gen_element rec acm tcm k element = Ok x ->
  exists instance, x = VCodec instance.
Proof.
  intros -> Hrec. unfold gen_element, load_codec. intros Hok.
  apply rbind_ok in Hok as (plain & Hplain & Hok).
  destruct plain.
  - destruct element; simpl in Hplain; try discriminate.
    specialize (Hrec props). apply rmap_ok in Hok as (m & Hm & _).
    rewrite Hm in Hrec. discriminate.
  - apply rbind_ok in Hok as (entry & _ & Hok).
    apply rbind_ok in Hok as (instance & _ & [= <-]). eauto.
Qed.

End Loop.
End BuilderMore.

Section BuilderResults.
Context {H : Host}.

Abbreviation value := (val CodecInstance).
Abbreviation js_map := (list (key * val CodecInstance)).
Abbreviation TermCodecMap := (gmap key (tcm_entry Codec)).
Abbreviation AppTermMap := (gmap string Codec).

Lemma codec_entry_nodup atm tcm (dm : js_map) :
  codec_entry atm tcm = Ok dm -> List.NoDup (List.map fst dm).
Proof.
  unfold codec_entry. destruct atm as [a|], tcm as [c|];
    try (intros [= <-]; constructor).
  destruct (bool_decide (0 < size a)%nat); [|intros [= <-]; constructor].
  intros Hok. apply rbind_ok in Hok as (instance & _ & Hok).
  apply rbind_ok in Hok as (entry & _ & [= <-]).
  simpl. repeat constructor. intros [].
Qed.

(** The builder as a loop whose nested call fails on plain objects. *)
Lemma generateDecodingMap_entries cborMap acm atm tcm (dm : js_map) :
  _generateDecodingMap cborMap acm atm tcm = Ok dm ->
  exists rec entries dm0,
    codec_entry atm tcm = Ok dm0 /\
    gen_entries rec acm tcm entries dm0 = Ok dm /\
    forall props, is_ok (rec (VObj props)) = false.
Proof.
  destruct cborMap; simpl; intros Hok;
    apply rbind_ok in Hok as (dm0 & Hcodec & Hok); try discriminate.
  - rewrite gen_indexed_entries in Hok.
    eexists _, _, dm0. repeat split; [exact Hcodec | exact Hok | reflexivity].
  - rewrite gen_indexed_entries in Hok.
    eexists _, _, dm0. repeat split; [exact Hcodec | exact Hok | reflexivity].
  - eexists _, _, dm0. repeat split; [exact Hcodec | exact Hok | reflexivity].
Qed.

Lemma gen_element_opaque rec acm k (element : value) :
  opaque_element element = true ->
  gen_element rec acm None k element = Ok element.
Proof.
  unfold gen_element. destruct element; simpl; try reflexivity; try discriminate.
  destruct (bool_decide (props !! "constructor" = None)); [discriminate | reflexivity].
Qed.

Lemma gen_element_not_opaque acm tcm k (element : value) :
  opaque_element element = false ->
  is_ok (gen_element (nested_call acm tcm) acm tcm k element) = false.
Proof.
  unfold gen_element. destruct element; simpl; try reflexivity; try discriminate.
  destruct (bool_decide (props !! "constructor" = None)); [reflexivity | discriminate].
Qed.

Lemma gen_value_kept rec acm k (v : value) :
  kept_as_is v = true -> gen_value rec acm None k v = Ok v.
Proof.
  destruct v; simpl; try reflexivity; try discriminate.
  intros Hall. rewrite mapM_id; [reflexivity|].
  intros x Hin. apply gen_element_opaque.
  rewrite forallb_forall in Hall. auto.
Qed.

Lemma gen_entries_kept rec acm (entries acc : js_map) :
  (forall k v, In (k, v) entries -> kept_as_is v = true) ->
  List.NoDup (List.map fst (acc ++ entries)) ->
  gen_entries rec acm None entries acc = Ok (acc ++ entries)%list.
Proof.
  revert acc. induction entries as [|[k v] rest IH]; intros acc Hkept Hnd; simpl.
  - rewrite app_nil_r. reflexivity.
  - unfold gen_entry. simpl. rewrite gen_value_kept by (apply (Hkept k); left; reflexivity).
    simpl. rewrite map_set_fresh.
    + rewrite IH; rewrite <- ?app_assoc; simpl; auto.
      intros k' v' Hin. apply (Hkept k'). right. exact Hin.
    + rewrite List.map_app in Hnd. simpl in Hnd.
      apply NoDup_remove_2 in Hnd. intros Hin. apply Hnd.
      apply in_or_app. auto.
Qed.

Lemma gen_entries_loaded rec acm t (entries dm acc : js_map) :
  Forall2 (loaded_as acm t) entries dm ->
  List.NoDup (List.map fst (acc ++ dm)) ->
  gen_entries rec acm (Some t) entries acc = Ok (acc ++ dm)%list.
Proof.
  intros Hall. revert acc.
  induction Hall as [|[k v] tx rest dm (Hleaf & entry & instance & Hk & Hset & ->) _ IH];
    intros acc Hnd; simpl.
  - rewrite app_nil_r. reflexivity.
  - simpl in *. unfold gen_entry. rewrite Hk. simpl.
    assert (gen_value rec acm (Some t) k v = Ok (VCodec instance)) as ->.
    { destruct v; try discriminate; simpl; unfold tcm_get;
        rewrite Hk; simpl; rewrite Hset; reflexivity. }
    simpl. rewrite map_set_fresh.
    + rewrite IH; rewrite <- ?app_assoc; simpl; auto.
    + rewrite List.map_app in Hnd. simpl in Hnd.
      apply NoDup_remove_2 in Hnd. intros Hin. apply Hnd.
      apply in_or_app. auto.
Qed.
End BuilderResults.

(** X7. The terms of a decoding map returned by the builder are pairwise
    distinct, whatever the binary value, the application term map and the
    term codec map: binary keys that resolve to one term share one entry. *)
Theorem decoding_map_terms_distinct {H : Host} (cborMap : val CodecInstance)
    (acm : option AppContextMap) (atm : option (gmap string Codec))
    (tcm : option (gmap key (tcm_entry Codec)))
    (dm : list (key * val CodecInstance)) :
  _generateDecodingMap cborMap acm atm tcm = Ok dm ->
  List.NoDup (List.map fst dm).
Proof.
  intros Hok.
  apply generateDecodingMap_entries in Hok as (rec & entries & dm0 & Hcodec & Hloop & _).
  eapply gen_entries_nodup; [exact Hloop|].
  eapply codec_entry_nodup, Hcodec.
Qed.

Lemma decoding_map_terms_distinct_witness :
  List.NoDup
    (List.map fst
       [(KStr "@codec",
         VCodec (Sample.Loaded Sample.CodecMapCodec (VStr "x")) : val Sample.instance);
        (KStr "name", VCodec (Sample.Loaded Sample.SimpleTypeCodec (VStr "Alice")))]).
Proof.
  exact (decoding_map_terms_distinct (H := Sample.host)
           (VMap [(KStr "@codec", VStr "x"); (KNum 1, VStr "Alice")]) None
           (Some Sample.appTermMap) (Some Sample.termCodecMap) _ eq_refl).
Defined.



Lemma gen_value_shape {H : Host} rec acm t k (v x : val CodecInstance) :
  (forall props, is_ok (rec (VObj props)) = false) ->
  gen_value rec acm (Some t) k v = Ok x ->
  (exists raw m, v = VMap raw /\ x = VMap m /\ rec (VMap raw) = Ok m) \/
  (is_Map v = false /\ is_Map x = false /\ codec_leafed x).
Proof.
  intros Hrec Hok.
  assert (load_codec acm (Some t) k v = Ok x ->
          is_Map x = false /\ codec_leafed x) as Hload.
  { unfold load_codec. intros Hl.
    apply rbind_ok in Hl as (entry & _ & Hl).
    apply rbind_ok in Hl as (instance & _ & [= <-]).
    split; [reflexivity | constructor]. }
  destruct v; try (right; split; [reflexivity | apply Hload; exact Hok]).
  - simpl in Hok. apply rmap_ok in Hok as (l' & Hmap & ->).
    right. split; [reflexivity | split; [reflexivity|]].
    apply leafed_array. intros element Hin.
    destruct (mapM_ok _ _ _ Hmap element Hin) as (raw & _ & Hraw).
    eapply gen_element_leaf; eauto.
  - simpl in Hok. apply rmap_ok in Hok as (m & Hm & ->). left. eauto.
Qed.

(** Induction on the maps nested in a value through map-valued entries. *)
Lemma nested_maps_ind {I : Type} (P : val I -> Prop) :
  (forall v, is_Map v = false -> P v) ->
  (forall entries, (forall k v, In (k, v) entries -> P v) -> P (VMap entries)) ->
  forall v, P v.
Proof.
  intros Hleaf Hmap. fix IH 1. intros v.
  destruct v; try (apply Hleaf; reflexivity).
  apply Hmap.
  induction entries as [|[k0 v0] rest IHrest]; intros k v [].
  - injection H as _ <-. apply IH.
  - eapply IHrest. eassumption.
Qed.

(** X9. Under an active term codec map, the decoding map the builder returns
    for a binary map holds no raw value of the binary map, at any depth:
    every value in it is a codec instance, an array of codec instances, or
    a nested decoding map whose values are of that kind in turn. *)
Theorem decoding_map_is_codec_leafed {H : Host}
    (entries : list (key * val CodecInstance))
    (acm : option AppContextMap) (atm : option (gmap string Codec))
    (t : gmap key (tcm_entry Codec)) (dm : list (key * val CodecInstance)) :
  _generateDecodingMap (VMap entries) acm atm (Some t) = Ok dm ->
  codec_leafed (VMap dm).
Proof.
  revert atm dm.
  generalize (eq_refl (VMap entries)).
  generalize (VMap entries) at 1 3 as v. intros v. revert entries.
  induction v as [v Hleaf|raw IH] using nested_maps_ind; intros entries Hv atm dm Hok.
  - subst v. discriminate.
  - injection Hv as <-. apply leafed_map. intros term x Hin.
    rewrite generateDecodingMap_Map in Hok.
    apply rbind_ok in Hok as (dm0 & Hcodec & Hloop).
    destruct (gen_entries_origin _ _ _ _ _ _ _ _ Hloop Hin)
      as [Hin0|(k & rv & Hk & _ & Hv)].
    + destruct (codec_entry_values _ _ _ _ _ Hcodec Hin0) as [instance ->].
      constructor.
    + apply gen_value_shape in Hv as [(raw' & m & -> & -> & Hm)|(_ & _ & Hx)];
        [|exact Hx|reflexivity].
      exact (IH k (VMap raw') Hk raw' eq_refl None m Hm).
Qed.

Lemma decoding_map_is_codec_leafed_witness :
  codec_leafed (H := Sample.host)
    (VMap [(KStr "@codec", VCodec (Sample.LoadedTerms Sample.appTermMap));
           (KStr "knows",
            VMap [(KStr "name",
                   VArr [VCodec (Sample.Loaded Sample.SimpleTypeCodec (VStr "Bob"));
                         VCodec (Sample.Loaded Sample.SimpleTypeCodec (VMap []))])])]).
Proof.
  exact (decoding_map_is_codec_leafed (H := Sample.host)
           [(KNum 2, VMap [(KNum 1, VArr [VStr "Bob"; VMap []])])] None
           (Some Sample.appTermMap) Sample.termCodecMap _ eq_refl).
Defined.

(** X10. An array that holds [null] or a plain object cannot be built: the
    test on the element throws for [null], and the nested call made for a
    plain object finds no [entries] method on it.  With or without a term
    codec map, the builder returns no decoding map. *)
Theorem array_with_object_or_null_fails {H : Host}
    (before after : list (key * val CodecInstance)) (k : key)
    (elements : list (val CodecInstance)) (element : val CodecInstance)
    (acm : option AppContextMap) (atm : option (gmap string Codec))
    (tcm : option (gmap key (tcm_entry Codec))) :
  In element elements ->
  opaque_element element = false ->
  is_ok (_generateDecodingMap (VMap (before ++ (k, VArr elements) :: after))
           acm atm tcm) = false.
Proof.
  intros Hin Hbad. rewrite generateDecodingMap_Map.
  destruct (codec_entry atm tcm) as [dm0|e]; simpl; [|reflexivity].
  rewrite gen_entries_app.
  destruct (gen_entries _ acm tcm before dm0) as [dm1|e]; simpl; [|reflexivity].
  unfold gen_entry.
  destruct (match tcm with
            | Some t => match t !! k with
                        | Some entry => Ok (tc_value entry)
                        | None => Err (unknown_term k)
                        end
            | None => Ok k
            end) as [term|e]; simpl; [|reflexivity].
  pose proof (mapM_fails (gen_element (nested_call acm tcm) acm tcm k) elements
                element Hin (gen_element_not_opaque acm tcm k element Hbad)) as Hfail.
  destruct (mapM _ elements); [discriminate | reflexivity].
Qed.

Lemma array_with_object_or_null_fails_witness :
  is_ok (_generateDecodingMap (H := Sample.host)
           (VMap [(KNum 1, VStr "Alice");
                  (KNum 2, VArr [VStr "Bob"; VObj {[ "name" := VStr "Carol" ]}])])
           None None (Some Sample.termCodecMap)) = false.
Proof.
  refine (array_with_object_or_null_fails (H := Sample.host)
            [(KNum 1, VStr "Alice")] [] (KNum 2)
            [VStr "Bob"; VObj {[ "name" := VStr "Carol" ]}]
            (VObj {[ "name" := VStr "Carol" ]}) None None
            (Some Sample.termCodecMap) _ eq_refl).
  right. left. reflexivity.
Defined.

(** X11. With no term codec map the builder returns the entries of the
    binary map as they are, provided its keys are distinct and its values
    are scalars or arrays free of [null] and of plain objects; the
    application term map plays no part. *)
Theorem no_term_codec_map_keeps_entries {H : Host}
    (entries : list (key * val CodecInstance)) (acm : option AppContextMap)
    (atm : option (gmap string Codec)) :
  List.NoDup (List.map fst entries) ->
  (forall k v, In (k, v) entries -> kept_as_is v = true) ->
  _generateDecodingMap (VMap entries) acm atm None = Ok entries.
Proof.
  intros Hnd Hkept. rewrite generateDecodingMap_Map.
  assert (codec_entry atm None = Ok []) as -> by (destruct atm; reflexivity).
  simpl. apply gen_entries_kept; assumption.
Qed.

Lemma no_term_codec_map_keeps_entries_witness :
  _generateDecodingMap (H := Sample.host)
    (VMap [(KNum 1, VStr "Alice"); (KNum 2, VArr [VNum 3; VArr []])])
    None (Some Sample.appTermMap) None =
  Ok [(KNum 1, VStr "Alice"); (KNum 2, VArr [VNum 3; VArr []])].
Proof.
  apply (no_term_codec_map_keeps_entries (H := Sample.host)).
  - simpl. repeat constructor; simpl; intuition discriminate.
  - intros k v [[= <- <-]|[[= <- <-]|[]]]; reflexivity.
Defined.

(** X12. Under an active term codec map and without an application term
    map, a binary map whose values are leaves, whose keys are all
    registered and whose values the registered codecs accept is built into
    the list of its entries, each under its term and loaded into its codec,
    in the order of the binary map, provided the terms are distinct. *)
Theorem flat_map_built {H : Host}
    (entries dm : list (key * val CodecInstance)) (acm : option AppContextMap)
    (t : gmap key (tcm_entry Codec)) :
  Forall2 (loaded_as acm t) entries dm ->
  List.NoDup (List.map fst dm) ->
  _generateDecodingMap (VMap entries) acm None (Some t) = Ok dm.
Proof.
  intros Hall Hnd. rewrite generateDecodingMap_Map, codec_entry_absent. simpl.
  apply (gen_entries_loaded _ acm t entries dm []); assumption.
Qed.

Lemma flat_map_built_witness :
  _generateDecodingMap (H := Sample.host)
    (VMap [(KNum 2, VStr "Bob"); (KNum 1, VNull)]) None None
    (Some Sample.termCodecMap) =
  Ok [(KStr "knows", VCodec (Sample.Loaded Sample.SimpleTypeCodec (VStr "Bob")));
      (KStr "name", VCodec (Sample.Loaded Sample.SimpleTypeCodec VNull))].
Proof.
  apply (flat_map_built (H := Sample.host)).
  - repeat constructor; simpl; eexists _, _; repeat split; reflexivity.
  - simpl. repeat constructor; simpl; intuition discriminate.
Defined.



(** * Further properties of the whole decoding *)

Lemma rbind_Ok {A B : Type} (a : A) (k : A -> result B) : rbind (Ok a) k = k a.
Proof. reflexivity. Qed.

Lemma first_entry_stays {H : Host} rec acm
    (rest acc dm : list (key * val CodecInstance)) (k : key)
    (x : val CodecInstance) :
  gen_entries rec acm None rest ((k, x) :: acc) = Ok dm ->
  ~ In k (List.map fst rest) ->
  exists dm', dm = (k, x) :: dm'.
Proof.
  revert acc. induction rest as [|[k' v'] rest IH]; intros acc; simpl.
  - intros [= <-] _. eauto.
  - intros Hok Hfresh. apply rbind_ok in Hok as (dm1 & Hentry & Hrest).
    apply gen_entry_ok in Hentry as (term & dv & Hterm & _ & ->).
    simpl in Hterm. injection Hterm as <-.
    simpl in Hrest. destruct (decide (k = k')) as [->|Hne]; [tauto|].
    apply (IH _ Hrest). tauto.
Qed.

(** X15. With no term codec map, a binary map whose first value is neither
    [null] nor [undefined], neither a map nor an array, and has no truthy
    [decodeCBOR] property (a number, a string, a boolean, a byte string) is
    never decoded, its first key not occurring again: when the builder
    fails on a later entry, that failure is the outcome; when the builder
    returns, the realizer rejects the first pair with
    [ERR_UNKNOWN_CBORLD_ENCODING]. *)
Theorem scalars_need_a_term_codec_map {H : Host} (k : key) (v : val CodecInstance)
    (rest : list (key * val CodecInstance)) (acm : option AppContextMap)
    (atm : option (gmap string Codec)) :
  (0 < stack_limit)%nat ->
  ~ In k (List.map fst rest) ->
  is_Map v = false ->
  is_Array v = false ->
  has_decodeCBOR v = Ok false ->
  decode_payload (VMap ((k, v) :: rest)) acm atm None =
  match _generateDecodingMap (VMap ((k, v) :: rest)) acm atm None with
  | Err e => Err e
  | Ok _ =>
      Err (CborldError "ERR_UNKNOWN_CBORLD_ENCODING"
             ("Unknown encoding for '" +:+ key_string k +:+
              "' detected in CBOR-LD input: " +:+ inspect v))
  end.
Proof.
  intros Hstack Hfresh Hmap Harr Hdec. unfold decode_payload.
  destruct (_generateDecodingMap (VMap ((k, v) :: rest)) acm atm None)
    as [dm|e] eqn:Hbuilt; [|reflexivity].
  rewrite rbind_Ok.
  rewrite generateDecodingMap_Map in Hbuilt.
  assert (codec_entry atm None = Ok []) as Hcodec by (destruct atm; reflexivity).
  rewrite Hcodec, rbind_Ok in Hbuilt. simpl in Hbuilt.
  apply rbind_ok in Hbuilt as (dm1 & Hentry & Hrest).
  assert (dm1 = [(k, v)]) as ->.
  { unfold gen_entry in Hentry. simpl in Hentry.
    destruct v; simpl in *; try discriminate; congruence. }
  destruct (first_entry_stays _ _ _ _ _ _ _ Hrest Hfresh) as [dm' ->].
  destruct stack_limit as [|depth]; [lia|].
  destruct v; simpl in *; try discriminate; try reflexivity.
  injection Hdec as ->. reflexivity.
Qed.

Lemma scalars_need_a_term_codec_map_witness :
  decode_payload (H := Sample.host)
    (VMap [(KNum 1, VStr "Alice"); (KNum 2, VArr [VStr "x"])]) None None None =
  Err (CborldError "ERR_UNKNOWN_CBORLD_ENCODING"
         "Unknown encoding for '1' detected in CBOR-LD input: 'Alice'").
Proof.
  refine (scalars_need_a_term_codec_map (H := Sample.host) (KNum 1) (VStr "Alice")
            [(KNum 2, VArr [VStr "x"])] None None _ _ eq_refl eq_refl eq_refl).
  - vm_compute. lia.
  - simpl. intuition discriminate.
Defined.

(** X16. The builder and the realizer in sequence: under an active term
    codec map and without an application term map, a binary map of leaves
    whose keys are registered, whose values the codecs accept and
    materialize, and whose terms have distinct strings is decoded into a
    document that binds each term (other than [__proto__]) to what
    [decodeCBOR] returns for the codec instance loaded with the value. *)
Theorem flat_map_decoded {H : Host}
    (entries dm : list (key * val CodecInstance)) (acm : option AppContextMap)
    (t : gmap key (tcm_entry Codec)) :
  (0 < stack_limit)%nat ->
  Forall2 (loaded_as acm t) entries dm ->
  List.NoDup (List.map (fun tx => key_string (fst tx)) dm) ->
  (forall term x, In (term, x) dm -> exists out, realized x out) ->
  exists doc,
    decode_payload (VMap entries) acm None (Some t) = Ok (VObj doc) /\
    forall term x, In (term, x) dm -> key_string term <> "__proto__" ->
                   exists out, realized x out /\ doc !! key_string term = Some out.
Proof.
  intros Hstack Hall Hnd Hreal. unfold decode_payload.
  rewrite generateDecodingMap_Map, codec_entry_absent, rbind_Ok.
  rewrite (gen_entries_loaded _ acm t entries dm []); [|exact Hall|].
  - destruct stack_limit as [|depth]; [lia|].
    destruct (realize_entries_complete (fun _ => Err stack_overflow) dm ∅ Hreal Hnd)
      as (doc & Hok & _ & Hfound).
    exists doc. split; [|exact Hfound].
    rewrite rbind_Ok, app_nil_l.
    rewrite (decodeMap_flat depth dm (fun _ => Err stack_overflow)).
    + rewrite Hok. reflexivity.
    + intros k v Hin. destruct (Hreal k v Hin) as [out Hout].
      exact (realized_not_map v out Hout).
  - simpl. rewrite <- (List.map_map fst key_string) in Hnd.
    exact (NoDup_map_inv _ _ Hnd).
Qed.

Lemma flat_map_decoded_witness :
  exists doc,
    decode_payload (H := Sample.host)
      (VMap [(KNum 2, VStr "Bob"); (KNum 1, VStr "Alice")]) None None
      (Some Sample.termCodecMap) = Ok (VObj doc) /\
    forall term x,
      In (term, x)
        [(KStr "knows", VCodec (Sample.Loaded Sample.SimpleTypeCodec (VStr "Bob")));
         (KStr "name", VCodec (Sample.Loaded Sample.SimpleTypeCodec (VStr "Alice")))] ->
      key_string term <> "__proto__" ->
      exists out, realized (H := Sample.host) x out /\
                  doc !! key_string term = Some out.
Proof.
  apply (flat_map_decoded (H := Sample.host)).
  - vm_compute. lia.
  - repeat constructor; simpl; eexists _, _; repeat split; reflexivity.
  - simpl. repeat constructor; simpl; intuition discriminate.
  - intros term x [[= <- <-]|[[= <- <-]|[]]];
      eexists; right; eexists; split; reflexivity.
Defined.

(** X17. When the CBOR decoder returns [null] or [undefined], the read of
    [.tag] throws: [fromCborld] rejects with a [TypeError], not with
    [ERR_NOT_CBORLD], and calls neither the resolver nor [diagnose]. *)
Theorem nullish_input_throws_TypeError {H : Host} (bytes : list Z)
    (acm : option AppContextMap) (atm : option (gmap string Codec))
    (loader : DocumentLoader) (diagnose : bool) (cborMap : val CodecInstance) :
  cbor_decode bytes = Ok cborMap ->
  cborMap = VNull \/ cborMap = VUndef ->
  exists what,
    fromCborld bytes acm atm loader diagnose ≅ Ret (Err (TypeError what)).
Proof.
  intros Hdecode Hnull. eexists. unfold fromCborld.
  rewrite Hdecode, bind_ok_ret.
  destruct Hnull as [-> | ->]; simpl; apply bind_ok_err.
Qed.

Lemma nullish_input_throws_TypeError_witness :
  exists what,
    fromCborld (H := Strict.host) [0xf6] None None tt true ≅
    Ret (Err (TypeError what)).
Proof.
  exact (nullish_input_throws_TypeError (H := Strict.host) [0xf6] None None tt true
           VNull eq_refl (or_introl eq_refl)).
Defined.

Lemma realize_entries_untouched {H : Host} rec
    (entries : list (key * val CodecInstance))
    (doc doc' : gmap string (val CodecInstance)) (name : string) :
  (forall k v, In (k, v) entries -> is_Map v = false) ->
  realize_entries rec entries doc = Ok doc' ->
  (forall k v, In (k, v) entries -> key_string k <> name) ->
  doc' !! name = doc !! name.
Proof.
  revert doc. induction entries as [|[k v] rest IH]; intros doc Hno; simpl.
  - intros [= <-] _. reflexivity.
  - intros Hok Hname. apply rbind_ok in Hok as (doc1 & Hentry & Hrest).
    apply realize_entry_ok in Hentry as (o & _ & ->);
      [|apply (Hno k); left; reflexivity].
    rewrite (IH _ (fun k' v' Hin => Hno k' v' (or_intror Hin)) Hrest
               (fun k' v' Hin => Hname k' v' (or_intror Hin))).
    rewrite lookup_obj_set, decide_False; [reflexivity|].
    intros [Heq _]. exact (Hname k v (or_introl eq_refl) Heq).
Qed.

(** C8, as stated, fails when the binary map carries a key of the term of
    [@codec]: line 120 files the value of that key in the place of the
    synthesized entry, and the decoding map holds no entry that wraps the
    application term map. *)
Lemma codec_entry_overwritten_counterexample :
  (0 < size Sample.appTermMap)%nat /\
  _generateDecodingMap (H := Sample.host) (VMap [(KStr "@codec", VStr "x")]) None
    None (Some Sample.termCodecMap) =
  Ok [(KStr "@codec", VCodec (Sample.Loaded Sample.CodecMapCodec (VStr "x")))] /\
  _generateDecodingMap (H := Sample.host) (VMap [(KStr "@codec", VStr "x")]) None
    (Some Sample.appTermMap) (Some Sample.termCodecMap) =
  Ok [(KStr "@codec", VCodec (Sample.Loaded Sample.CodecMapCodec (VStr "x")))].
Proof. repeat split; vm_compute; try reflexivity; lia. Qed.

(** C8, amended.  When the application term map is supplied and non-empty
    and a term codec map is active, the builder synthesizes one entry before
    it walks the binary map: the term of the reserved [@codec] key bound to
    a [CodecMapCodec] instance loaded with the application term map.  When
    no key of the binary map resolves to that term, it is exactly one extra
    entry: the decoding map is the one built without the application term
    map, preceded by that entry.  It is realized like every other
    codec-bearing entry: a document returned for a decoding map that starts
    with it binds the string of the term to what [decodeCBOR] returns for
    the instance (no other entry having that string, which is not
    [__proto__]). *)
Theorem codec_entry_is_one_extra_entry {H : Host}
    (acm : option AppContextMap) (atm : gmap string Codec)
    (t : gmap key (tcm_entry Codec)) (instance : CodecInstance)
    (entry : tcm_entry Codec) :
  (0 < size atm)%nat ->
  codecMap_set atm t = Ok instance ->
  t !! KStr "@codec" = Some entry ->
  codec_entry (Some atm) (Some t) = Ok [(tc_value entry, VCodec instance)] /\
  (forall cborMap dm,
      _generateDecodingMap cborMap acm None (Some t) = Ok dm ->
      map_get (tc_value entry) dm = None ->
      _generateDecodingMap cborMap acm (Some atm) (Some t) =
      Ok ((tc_value entry, VCodec instance) :: dm)) /\
  (forall depth dm doc,
      _decodeMap depth ((tc_value entry, VCodec instance) :: dm) = Ok doc ->
      (forall k v, In (k, v) dm -> key_string k <> key_string (tc_value entry)) ->
      key_string (tc_value entry) <> "__proto__" ->
      exists out,
        decodeCBOR instance = Ok out /\
        doc !! key_string (tc_value entry) = Some out).
Proof.
  intros Hsize Hset Hentry.
  pose proof (codec_entry_present atm t instance entry Hsize Hset Hentry) as Hsynth.
  split; [exact Hsynth | split].
  - intros cborMap dm Hplain Hfree.
    apply generateDecodingMap_loop in Hplain
      as (rec & entries & dm0 & Hcodec & Hloop & Hany).
    rewrite codec_entry_absent in Hcodec. injection Hcodec as <-.
    rewrite (Hany (Some atm) _ Hsynth).
    apply gen_entries_extra; assumption.
  - intros depth dm doc Hok Hother Hproto.
    pose proof (decodeMap_ok_no_map _ _ _ Hok) as Hno.
    destruct depth as [|depth]; [discriminate|]. simpl in Hok.
    destruct (decodeCBOR instance) as [out|e] eqn:Hdec; [|discriminate].
    simpl in Hok. exists out. split; [reflexivity|].
    rewrite (realize_entries_untouched _ dm _ doc (key_string (tc_value entry))
               (fun k v Hin => Hno k v (or_intror Hin)) Hok Hother).
    rewrite lookup_obj_set, decide_True; auto.
Qed.

Lemma codec_entry_is_one_extra_entry_witness :
  _generateDecodingMap (H := Sample.host) (VMap [(KNum 1, VStr "Alice")]) None
    (Some Sample.appTermMap) (Some Sample.termCodecMap) =
  Ok [(KStr "@codec", VCodec (Sample.LoadedTerms Sample.appTermMap));
      (KStr "name", VCodec (Sample.Loaded Sample.SimpleTypeCodec (VStr "Alice")))] /\
  exists out,
    decodeCBOR (Host := Sample.host) (Sample.LoadedTerms Sample.appTermMap) = Ok out /\
    ({[ "@codec" := VObj {[ "amount" := VStr "SimpleTypeCodec" ]};
        "name" := VStr "Alice" ]} : gmap string (val Sample.instance))
      !! "@codec" = Some out.
Proof.
  assert (0 < size Sample.appTermMap)%nat as Hsize by (vm_compute; lia).
  destruct (codec_entry_is_one_extra_entry (H := Sample.host)
              None Sample.appTermMap Sample.termCodecMap
              (Sample.LoadedTerms Sample.appTermMap)
              (TcmEntry (KStr "@codec") Sample.CodecMapCodec)
              Hsize eq_refl eq_refl) as (_ & Hbuilt & Hrealized).
  split.
  - exact (Hbuilt (VMap [(KNum 1, VStr "Alice")])
             [(KStr "name",
               VCodec (Sample.Loaded Sample.SimpleTypeCodec (VStr "Alice")))]
             eq_refl eq_refl).
  - refine (Hrealized 64%nat
              [(KStr "name",
                VCodec (Sample.Loaded Sample.SimpleTypeCodec (VStr "Alice")))]
              _ _ _ _).
    + vm_compute. reflexivity.
    + intros k v [[= <- <-]|[]]. simpl. discriminate.
    + simpl. discriminate.
Defined.
